(** * GenSON: the top-level schema aggregator [SchemaRoot]

    A shallow embedding of [genson/schema/root.py].  Python objects live in
    a store addressed by references, so that aliasing between a caller's
    dictionary, a second [SchemaRoot] and the receiver is visible to the
    theorems; every method is a computation over that store. *)

From stdpp Require Import base option list gmap strings.

Local Open Scope string_scope.
Local Open Scope list_scope.
Local Open Scope stdpp_scope.
Set Warnings "-register-all".

(** ** JSON values

    [JNull] is Python's [None].  Numbers are restricted to integers; no
    property below depends on a fractional number. *)

Inductive json : Type :=
| JNull
| JBool (b : bool)
| JNum (z : Z)
| JStr (s : string)
| JArr (l : list json)
| JObj (m : gmap string json).

(** The contents of a Python [dict] with string keys. *)
Abbreviation dict := (gmap string json).

(** Python truth value testing: [None], [False], zero and empty
    containers are false, everything else is true. *)
Definition truthy (v : json) : bool :=
  match v with
  | JNull => false
  | JBool b => b
  | JNum z => negb (Z.eqb z 0)
  | JStr s => negb (String.eqb s "")
  | JArr l => negb (Nat.eqb (length l) 0)
  | JObj m => negb (Nat.eqb (size m) 0)
  end.

(** [x or y]. *)
Definition py_or (x y : json) : json := if truthy x then x else y.

(** [x is None]. *)
Definition is_None (x : json) : bool :=
  match x with JNull => true | _ => false end.

(** [SchemaRoot.DEFAULT_URI] (line 72). *)
Definition DEFAULT_URI : json := JStr "http://json-schema.org/schema#".

(** ** The inference engine *)

(** Modelled from the spec: the class [SchemaNode] of
    [genson/schema/node.py] is imported by [root.py] but is not among the
    sources; section 6 of the specification gives the interface the
    aggregator requires of it.  The engine is kept abstract: a state and
    the five operations [root.py] calls, none of which touches anything
    but the engine's own state. *)
Class Engine : Type := {
  node_state : Type;
  (** [SchemaNode()] *)
  SchemaNode : node_state;
  (** [node.add_schema(schema)] *)
  node_add_schema : node_state → dict → node_state;
  (** [node.add_object(obj)] *)
  node_add_object : node_state → json → node_state;
  (** [node.to_schema()] *)
  node_to_schema : node_state → dict;
  (** [len(node)] *)
  node_len : node_state → nat;
  (** [node == other] *)
  node_eq : node_state → node_state → bool
}.

(** ** The store *)

Abbreviation loc := nat.

Inductive obj `{Engine} : Type :=
| ODict (d : dict)
| ONode (n : node_state)
| ORoot (_root_node : loc) (schema_uri : json).

(** References are indices: allocation appends, nothing is ever freed. *)
Abbreviation heap := (list obj).

(** ** Computations: state passing with failure

    [None] stands for a Python exception ([KeyError], [AttributeError],
    [TypeError]). *)

Definition M `{Engine} (A : Type) : Type := heap → option (A * heap).

Definition ret `{Engine} {A} (a : A) : M A := λ h, Some (a, h).

Definition bind `{Engine} {A B} (m : M A) (f : A → M B) : M B :=
  λ h, match m h with
       | Some (a, h') => f a h'
       | None => None
       end.

Definition raise `{Engine} {A} : M A := λ _, None.

Notation "'let*' x ':=' m 'in' k" := (bind m (λ x, k))
  (at level 10, x pattern, m at level 100, k at level 200).
Notation "m ';;' k" := (bind m (λ _, k))
  (at level 100, k at level 200, right associativity).

Section SchemaRoot.
Context `{Engine}.

(** *** Primitive store operations *)

Definition alloc (o : obj) : M loc := λ h, Some (length h, h ++ [o]).

Definition deref (l : loc) : M obj :=
  λ h, match h !! l with
       | Some o => Some (o, h)
       | None => None
       end.

Definition assign (l : loc) (o : obj) : M unit :=
  λ h, if decide (l < length h) then Some (tt, <[l := o]> h) else None.

Definition get_dict (l : loc) : M dict :=
  let* o := deref l in
  match o with ODict d => ret d | _ => raise end.

Definition get_node (l : loc) : M node_state :=
  let* o := deref l in
  match o with ONode n => ret n | _ => raise end.

Definition get_root (l : loc) : M (loc * json) :=
  let* o := deref l in
  match o with ORoot rn uri => ret (rn, uri) | _ => raise end.

(** *** Python [dict] operations on a stored dictionary *)

(** [key in d] *)
Definition dict_contains (l : loc) (key : string) : M bool :=
  let* d := get_dict l in
  ret (bool_decide (is_Some (d !! key))).

(** [d[key]] *)
Definition dict_getitem (l : loc) (key : string) : M json :=
  let* d := get_dict l in
  match d !! key with Some v => ret v | None => raise end.

(** [del d[key]]: in place, [KeyError] when the key is absent. *)
Definition dict_delitem (l : loc) (key : string) : M unit :=
  let* d := get_dict l in
  match d !! key with
  | Some _ => assign l (ODict (delete key d))
  | None => raise
  end.

(** [dict(d)]: a new dictionary with the same items. *)
Definition dict_copy (l : loc) : M loc :=
  let* d := get_dict l in
  alloc (ODict d).

(** [d.update(other)]: in place, the items of [other] win. *)
Definition dict_update (l other : loc) : M unit :=
  let* d := get_dict l in
  let* d' := get_dict other in
  assign l (ODict (d' ∪ d)).

(** *** The engine object behind a reference *)

(** [node.to_schema()] returns a dictionary object. *)
Definition SchemaNode_to_schema (node : loc) : M loc :=
  let* n := get_node node in
  alloc (ODict (node_to_schema n)).

(** [node.add_schema(schema)] *)
Definition SchemaNode_add_schema (node schema : loc) : M unit :=
  let* n := get_node node in
  let* d := get_dict schema in
  assign node (ONode (node_add_schema n d)).

(** [node.add_object(obj)] *)
Definition SchemaNode_add_object (node : loc) (o : json) : M unit :=
  let* n := get_node node in
  assign node (ONode (node_add_object n o)).

(** *** [SchemaRoot] *)

(** [__init__] (lines 74-82); the result is the new object. *)
Definition __init__ (schema_uri : json) : M loc :=
  let* node := alloc (ONode SchemaNode) in
  alloc (ORoot node schema_uri).

(** [_base_schema] (lines 156-157) *)
Definition _base_schema (self : loc) : M loc :=
  let* (_, uri) := get_root self in
  alloc (ODict {[ "$schema" := py_or uri DEFAULT_URI ]}).

(** [to_schema] (lines 117-125) *)
Definition to_schema (self : loc) : M loc :=
  let* schema := _base_schema self in
  let* (node, _) := get_root self in
  let* s := SchemaNode_to_schema node in
  dict_update schema s ;;
  ret schema.

(** Lines 95-101 of [add_schema]: the [isinstance] tests look at the
    object behind the reference; a dictionary is used as it is. *)
Definition add_schema_resolve (schema : loc) : M loc :=
  let* o := deref schema in
  match o with
  | ORoot _ schema_uri =>
      let* s := to_schema schema in
      (if is_None schema_uri then dict_delitem s "$schema" else ret tt) ;;
      ret s
  | ONode _ => SchemaNode_to_schema schema
  | ODict _ => ret schema
  end.

(** Lines 103-106 of [add_schema]; [self.schema_uri or schema['$schema']]
    reads the dictionary only when the first operand is false. *)
Definition add_schema_strip (self schema : loc) : M loc :=
  let* has := dict_contains schema "$schema" in
  if has then
    let* (node, uri) := get_root self in
    let* v :=
      (if truthy uri then ret uri else dict_getitem schema "$schema") in
    assign self (ORoot node v) ;;
    let* c := dict_copy schema in
    dict_delitem c "$schema" ;;
    ret c
  else ret schema.

(** Lines 95-106: the fragment that line 107 hands to the engine. *)
Definition add_schema_fragment (self schema : loc) : M loc :=
  let* schema := add_schema_resolve schema in
  add_schema_strip self schema.

(** [add_schema] (lines 84-107) *)
Definition add_schema (self schema : loc) : M unit :=
  let* schema := add_schema_fragment self schema in
  let* (node, _) := get_root self in
  SchemaNode_add_schema node schema.

(** [add_object] (lines 109-115) *)
Definition add_object (self : loc) (o : json) : M unit :=
  let* (node, _) := get_root self in
  SchemaNode_add_object node o.

(** [__len__] (lines 135-140) *)
Definition __len__ (self : loc) : M nat :=
  let* (node, _) := get_root self in
  let* n := get_node node in
  ret (node_len n).

(** [__eq__] (lines 142-151) *)
Definition __eq__ (self other : loc) : M bool :=
  if decide (self = other) then ret true
  else
    let* o := deref other in
    match o with
    | ORoot node' _ =>
        let* (node, _) := get_root self in
        let* n := get_node node in
        let* n' := get_node node' in
        ret (node_eq n n')
    | _ => ret false
    end.

(** [__ne__] (lines 153-154) *)
Definition __ne__ (self other : loc) : M bool :=
  let* b := __eq__ self other in
  ret (negb b).

(** *** Reading the store *)

(** [self.schema_uri] *)
Definition schema_uri_of (h : heap) (self : loc) : option json :=
  match h !! self with
  | Some (ORoot _ uri) => Some uri
  | _ => None
  end.

(** The items of the dictionary behind a reference. *)
Definition dict_at (h : heap) (l : loc) : option dict :=
  match h !! l with
  | Some (ODict d) => Some d
  | _ => None
  end.

(** A [SchemaRoot] object whose [_root_node] is a [SchemaNode] object. *)
Definition is_SchemaRoot (h : heap) (self node : loc) (uri : json)
    (n : node_state) : Prop :=
  h !! self = Some (ORoot node uri) ∧ h !! node = Some (ONode n).

(** The three kinds of argument [add_schema] tells apart: a dictionary,
    an engine object, another [SchemaRoot]. *)
Inductive mergeable (h : heap) (schema : loc) : Prop :=
| mergeable_dict d :
    h !! schema = Some (ODict d) → mergeable h schema
| mergeable_node n :
    h !! schema = Some (ONode n) → mergeable h schema
| mergeable_root node uri n :
    is_SchemaRoot h schema node uri n → mergeable h schema.

(** The dictionary [to_schema] builds. *)
Definition document (uri : json) (n : node_state) : dict :=
  node_to_schema n ∪ {[ "$schema" := py_or uri DEFAULT_URI ]}.

(** The dictionary that lines 95-101 resolve the argument to. *)
Definition carried (h : heap) (o : obj) : option dict :=
  match o with
  | ODict d => Some d
  | ONode n => Some (node_to_schema n)
  | ORoot node uri =>
      match h !! node with
      | Some (ONode n) =>
          Some (if is_None uri then delete "$schema" (document uri n)
                else document uri n)
      | _ => None
      end
  end.

(** The value of [self.schema_uri] after line 104, from its value before
    and the resolved dictionary. *)
Definition adopt (uri : json) (d : dict) : json :=
  match d !! "$schema" with
  | Some v => if truthy uri then uri else v
  | None => uri
  end.

(** Dictionaries are the only objects a method allocates. *)
Definition is_dict (o : obj) : Prop :=
  match o with
  | ODict _ => True
  | _ => False
  end.

(** No [SchemaRoot] of the store refers to an engine outside it. *)
Definition closed_store (h : heap) : Prop :=
  ∀ r node uri, h !! r = Some (ORoot node uri) → node < length h.

(** [a] is a [SchemaRoot] and the only one whose [_root_node] is
    [node]: [__init__] gives every aggregator an engine of its own. *)
Definition sole_owner (h : heap) (a node : loc) : Prop :=
  (∃ uri n, is_SchemaRoot h a node uri n) ∧
  ∀ r uri, h !! r = Some (ORoot node uri) → r = a.

(** *** Programs

    What a caller can do with the module: build aggregators and
    dictionaries, and call the methods that write or allocate. *)
Inductive call : Type :=
| New (schema_uri : json)
| Literal (d : dict)
| AddSchema (self schema : loc)
| AddObject (self : loc) (o : json)
| ToSchema (self : loc).

Definition do_call (c : call) : M unit :=
  match c with
  | New schema_uri => __init__ schema_uri ;; ret tt
  | Literal d => alloc (ODict d) ;; ret tt
  | AddSchema self schema => add_schema self schema
  | AddObject self o => add_object self o
  | ToSchema self => to_schema self ;; ret tt
  end.

Fixpoint do_calls (cs : list call) : M unit :=
  match cs with
  | [] => ret tt
  | c :: cs => do_call c ;; do_calls cs
  end.

(** [c] is [a.add_schema(...)] or [a.add_object(...)]. *)
Definition feeds (a : loc) (c : call) : bool :=
  match c with
  | AddSchema self _ | AddObject self _ => bool_decide (self = a)
  | _ => false
  end.

(** *** The engine contract

    Modelled from the spec: what section 6 requires of the engine, the
    class [SchemaNode] being absent from the sources. *)

(** Modelled from the spec: [toSchema()] "must never contain a
    dialect-identifier key". *)
Definition no_dialect_key : Prop :=
  ∀ n, node_to_schema n !! "$schema" = None.

(** Modelled from the spec: [size()] is "0 iff no addFragment/addValue
    has ever succeeded". *)
Definition size_contract : Prop :=
  node_len SchemaNode = 0 ∧
  (∀ n d, 0 < node_len (node_add_schema n d)) ∧
  (∀ n v, 0 < node_len (node_add_object n v)).

(** Not a condition of section 6: merging in the fragment the engine
    itself reports leaves that fragment as it is.  An engine can be
    "idempotent under repeated identical merges" without it. *)
Definition absorbs_own_fragment : Prop :=
  ∀ n, node_to_schema (node_add_schema n (node_to_schema n))
       = node_to_schema n.

End SchemaRoot.

(** ** A reference engine *)

Module RefEngine.

(** Modelled from the spec: an engine meeting the contract of section 6,
    standing in for the absent [SchemaNode].  It records which JSON types
    it has been shown; a fragment without a usable ["type"] is recorded as
    accepting anything. *)
Record types : Type := Types {
  t_null : bool; t_boolean : bool; t_integer : bool; t_string : bool;
  t_array : bool; t_object : bool; t_any : bool
}.

Definition empty : types := Types false false false false false false false.

Definition mark (name : string) (n : types) : types :=
  let '(Types a b c d e f g) := n in
  if String.eqb name "null" then Types true b c d e f g
  else if String.eqb name "boolean" then Types a true c d e f g
  else if String.eqb name "integer" then Types a b true d e f g
  else if String.eqb name "string" then Types a b c true e f g
  else if String.eqb name "array" then Types a b c d true f g
  else if String.eqb name "object" then Types a b c d e true g
  else Types a b c d e f true.

Definition mark_json (v : json) (n : types) : types :=
  match v with
  | JStr name => mark name n
  | _ => mark "" n
  end.

Definition add_schema (n : types) (schema : dict) : types :=
  match schema !! "type" with
  | Some (JArr (v :: l)) => foldr mark_json n (v :: l)
  | Some v => mark_json v n
  | None => mark "" n
  end.

Definition add_object (n : types) (o : json) : types :=
  match o with
  | JNull => mark "null" n
  | JBool _ => mark "boolean" n
  | JNum _ => mark "integer" n
  | JStr _ => mark "string" n
  | JArr _ => mark "array" n
  | JObj _ => mark "object" n
  end.

Definition names (n : types) : list string :=
  (if t_null n then ["null"] else []) ++
  (if t_boolean n then ["boolean"] else []) ++
  (if t_integer n then ["integer"] else []) ++
  (if t_string n then ["string"] else []) ++
  (if t_array n then ["array"] else []) ++
  (if t_object n then ["object"] else []).

Definition to_schema (n : types) : dict :=
  if t_any n then ∅
  else match names n with
       | [] => ∅
       | [name] => {[ "type" := JStr name ]}
       | l => {[ "type" := JArr (JStr <$> l) ]}
       end.

Definition len (n : types) : nat :=
  length (names n) + (if t_any n then 1 else 0).

Definition eq (n m : types) : bool :=
  bool_decide (names n = names m) && Bool.eqb (t_any n) (t_any m).

(** Modelled from the spec: the reference engine as an [Engine]. *)
#[global] Instance engine : Engine := {|
  node_state := types;
  SchemaNode := empty;
  node_add_schema := add_schema;
  node_add_object := add_object;
  node_to_schema := to_schema;
  node_len := len;
  node_eq := eq
|}.

End RefEngine.

(** ** A store to run the methods on

    The objects a short session leaves behind:
    [{"$schema": "U2", "type": "string"}], then [SchemaRoot()],
    [SchemaRoot("U1")], [SchemaRoot("U2")], [SchemaRoot("")] and
    [SchemaRoot()], each preceded by its engine. *)

Module Scenario.

Definition fragment : dict :=
  <[ "type" := JStr "string" ]> {[ "$schema" := JStr "U2" ]}.

Definition session : list call :=
  [Literal fragment; New JNull; New (JStr "U1"); New (JStr "U2");
   New (JStr ""); New JNull].

Definition store : heap :=
  [ODict fragment;
   ONode RefEngine.empty; ORoot 1 JNull;
   ONode RefEngine.empty; ORoot 3 (JStr "U1");
   ONode RefEngine.empty; ORoot 5 (JStr "U2");
   ONode RefEngine.empty; ORoot 7 (JStr "");
   ONode RefEngine.empty; ORoot 9 JNull].

End Scenario.

(** ** Further specifications *)

Section Specifications.
Context `{Engine}.

(** The first ["$schema"] value that Python reads as true among the
    dictionaries merged, in the order they are merged. *)
Fixpoint first_dialect (ds : list dict) : option json :=
  match ds with
  | [] => None
  | d :: ds =>
      match d !! "$schema" with
      | Some v => if truthy v then Some v else first_dialect ds
      | None => first_dialect ds
      end
  end.

(** What a run of [add_schema] calls on dictionaries hands to the engine,
    one dictionary after the other. *)
Definition feed_all (n : node_state) (ds : list dict) : node_state :=
  foldl (λ n d, node_add_schema n (delete "$schema" d)) n ds.

(** Every [SchemaRoot] of the store has an engine object, and no other
    [SchemaRoot] has the same one. *)
Definition own_engines (h : heap) : Prop :=
  ∀ r node uri, h !! r = Some (ORoot node uri) → sole_owner h r node.

(** One merge into the engine: a fragment or a value. *)
Definition node_add (n : node_state) (i : dict + json) : node_state :=
  match i with
  | inl d => node_add_schema n d
  | inr v => node_add_object n v
  end.

(** Modelled from the spec: the engine has a "structural equality
    operator, independent of call order, and idempotent under repeated
    identical merges"; engines that are equal report equal fragments. *)
Definition merge_contract : Prop :=
  (∀ n m, node_eq n m = true ↔ n = m) ∧
  (∀ n m, node_eq n m = true → node_to_schema n = node_to_schema m) ∧
  (∀ n i j,
      node_eq (node_add (node_add n i) j) (node_add (node_add n j) i)
      = true) ∧
  (∀ n i, node_eq (node_add (node_add n i) i) (node_add n i) = true).

(** Modelled from the spec: all of section 6. *)
Definition section6_contract : Prop :=
  no_dialect_key ∧ size_contract ∧ merge_contract.

End Specifications.

(** ** An engine that meets section 6 and no more *)

Module WidestEngine.

(** Modelled from the spec: an engine meeting the contract of section 6
    read word for word.  Its state is the largest number of keys of any
    fragment merged so far, plus one; a value counts as a fragment
    without keys; 0 is the new engine. *)
Definition add_schema (n : nat) (schema : dict) : nat :=
  Nat.max n (S (size schema)).

Definition add_object (n : nat) (o : json) : nat := Nat.max n 1.

Definition to_schema (n : nat) : dict :=
  match n with
  | 0 => ∅
  | S _ => {[ "widest" := JNum (Z.of_nat n) ]}
  end.

(** Modelled from the spec: the engine as an [Engine]; it is passed by
    name and not found by instance search. *)
Definition engine : Engine := {|
  node_state := nat;
  SchemaNode := 0;
  node_add_schema := add_schema;
  node_add_object := add_object;
  node_to_schema := to_schema;
  node_len := λ n, n;
  node_eq := Nat.eqb
|}.

(** The store after [SchemaRoot()] in the empty store. *)
Definition fresh : list (@obj engine) :=
  [@ONode engine 0; @ORoot engine 0 JNull].

End WidestEngine.

(** ** What one call does to the store *)

Section Runs.
Context `{Engine}.
Implicit Types (h : heap) (l self schema node : loc) (o : obj) (d : dict).
Implicit Types (n : node_state) (uri : json).

Lemma bind_eq {A B} (m : M A) (f : A → M B) h a h' :
  m h = Some (a, h') → bind m f h = f a h'.
Proof. unfold bind. by intros ->. Qed.

Lemma deref_run h l o : h !! l = Some o → deref l h = Some (o, h).
Proof. unfold deref. by intros ->. Qed.

Lemma get_dict_run h l d :
  h !! l = Some (ODict d) → get_dict l h = Some (d, h).
Proof.
  intros Hl. unfold get_dict.
  by rewrite (bind_eq _ _ _ _ _ (deref_run _ _ _ Hl)).
Qed.

Lemma get_node_run h l n :
  h !! l = Some (ONode n) → get_node l h = Some (n, h).
Proof.
  intros Hl. unfold get_node.
  by rewrite (bind_eq _ _ _ _ _ (deref_run _ _ _ Hl)).
Qed.

Lemma get_root_run h l node uri :
  h !! l = Some (ORoot node uri) → get_root l h = Some ((node, uri), h).
Proof.
  intros Hl. unfold get_root.
  by rewrite (bind_eq _ _ _ _ _ (deref_run _ _ _ Hl)).
Qed.

Lemma assign_run h l o o' :
  h !! l = Some o' → assign l o h = Some (tt, <[l := o]> h).
Proof. intros Hl%lookup_lt_Some. unfold assign. by rewrite decide_True. Qed.

Lemma lookup_fresh h o xs : (h ++ o :: xs) !! length h = Some o.
Proof. by apply list_lookup_middle. Qed.

Lemma insert_fresh h o o' xs :
  <[length h := o']> (h ++ o :: xs) = h ++ o' :: xs.
Proof.
  replace (length h) with (length h + 0) at 1 by lia.
  by rewrite insert_app_r.
Qed.

(** The dictionary operations, on a store that holds the dictionary. *)
Lemma dict_contains_run h l d key :
  h !! l = Some (ODict d) →
  dict_contains l key h = Some (bool_decide (is_Some (d !! key)), h).
Proof.
  intros Hl. unfold dict_contains.
  by rewrite (bind_eq _ _ _ _ _ (get_dict_run _ _ _ Hl)).
Qed.

Lemma dict_getitem_run h l d key v :
  h !! l = Some (ODict d) → d !! key = Some v →
  dict_getitem l key h = Some (v, h).
Proof.
  intros Hl Hv. unfold dict_getitem.
  by rewrite (bind_eq _ _ _ _ _ (get_dict_run _ _ _ Hl)), Hv.
Qed.

Lemma dict_delitem_run h l d key :
  h !! l = Some (ODict d) → is_Some (d !! key) →
  dict_delitem l key h = Some (tt, <[l := ODict (delete key d)]> h).
Proof.
  intros Hl [v Hv]. unfold dict_delitem.
  rewrite (bind_eq _ _ _ _ _ (get_dict_run _ _ _ Hl)), Hv.
  by eapply assign_run.
Qed.

Lemma dict_copy_run h l d :
  h !! l = Some (ODict d) →
  dict_copy l h = Some (length h, h ++ [ODict d]).
Proof.
  intros Hl. unfold dict_copy.
  by rewrite (bind_eq _ _ _ _ _ (get_dict_run _ _ _ Hl)).
Qed.

Lemma dict_update_run h l other d d' :
  h !! l = Some (ODict d) → h !! other = Some (ODict d') →
  dict_update l other h = Some (tt, <[l := ODict (d' ∪ d)]> h).
Proof.
  intros Hl Ho. unfold dict_update.
  rewrite (bind_eq _ _ _ _ _ (get_dict_run _ _ _ Hl)).
  rewrite (bind_eq _ _ _ _ _ (get_dict_run _ _ _ Ho)).
  by eapply assign_run.
Qed.

(** The engine object's methods. *)
Lemma SchemaNode_to_schema_run h node n :
  h !! node = Some (ONode n) →
  SchemaNode_to_schema node h =
    Some (length h, h ++ [ODict (node_to_schema n)]).
Proof.
  intros Hn. unfold SchemaNode_to_schema.
  by rewrite (bind_eq _ _ _ _ _ (get_node_run _ _ _ Hn)).
Qed.

Lemma SchemaNode_add_schema_run h node n schema d :
  h !! node = Some (ONode n) → h !! schema = Some (ODict d) →
  SchemaNode_add_schema node schema h =
    Some (tt, <[node := ONode (node_add_schema n d)]> h).
Proof.
  intros Hn Hd. unfold SchemaNode_add_schema.
  rewrite (bind_eq _ _ _ _ _ (get_node_run _ _ _ Hn)).
  rewrite (bind_eq _ _ _ _ _ (get_dict_run _ _ _ Hd)).
  by eapply assign_run.
Qed.

Lemma SchemaNode_add_object_run h node n v :
  h !! node = Some (ONode n) →
  SchemaNode_add_object node v h =
    Some (tt, <[node := ONode (node_add_object n v)]> h).
Proof.
  intros Hn. unfold SchemaNode_add_object.
  rewrite (bind_eq _ _ _ _ _ (get_node_run _ _ _ Hn)).
  by eapply assign_run.
Qed.

Lemma document_has_dialect uri n : is_Some (document uri n !! "$schema").
Proof.
  unfold document. destruct (node_to_schema n !! "$schema") eqn:E.
  - exists j. by apply lookup_union_Some_l.
  - exists (py_or uri DEFAULT_URI).
    rewrite lookup_union_r by done. apply lookup_singleton_eq.
Qed.

Lemma _base_schema_run h self node uri :
  h !! self = Some (ORoot node uri) →
  _base_schema self h =
    Some (length h, h ++ [ODict {[ "$schema" := py_or uri DEFAULT_URI ]}]).
Proof.
  intros Hs. unfold _base_schema.
  by rewrite (bind_eq _ _ _ _ _ (get_root_run _ _ _ _ Hs)).
Qed.

Lemma to_schema_run h self node uri n :
  h !! self = Some (ORoot node uri) →
  h !! node = Some (ONode n) →
  to_schema self h =
    Some (length h, h ++ [ODict (document uri n); ODict (node_to_schema n)]).
Proof.
  intros Hs Hn. unfold to_schema.
  rewrite (bind_eq _ _ _ _ _ (_base_schema_run _ _ _ _ Hs)).
  set (base := ODict _).
  assert ((h ++ [base]) !! self = Some (ORoot node uri)) as Hs'
    by by apply lookup_app_l_Some.
  assert ((h ++ [base]) !! node = Some (ONode n)) as Hn'
    by by apply lookup_app_l_Some.
  rewrite (bind_eq _ _ _ _ _ (get_root_run _ _ _ _ Hs')).
  rewrite (bind_eq _ _ _ _ _ (SchemaNode_to_schema_run _ _ _ Hn')).
  set (h2 := (h ++ [base]) ++ [ODict (node_to_schema n)]).
  assert (h2 = h ++ [base; ODict (node_to_schema n)]) as Hh2
    by (unfold h2; by rewrite <- app_assoc).
  assert (h2 !! length h = Some base) as Hb
    by (rewrite Hh2; apply lookup_fresh).
  assert (h2 !! length (h ++ [base]) = Some (ODict (node_to_schema n))) as Hd
    by apply lookup_fresh.
  rewrite (bind_eq _ _ _ _ _ (dict_update_run _ _ _ _ _ Hb Hd)).
  unfold ret. by rewrite Hh2, insert_fresh.
Qed.

Lemma add_schema_resolve_run h schema o d :
  h !! schema = Some o → carried h o = Some d →
  ∃ s xs, Forall is_dict xs ∧
          add_schema_resolve schema h = Some (s, h ++ xs) ∧
          (h ++ xs) !! s = Some (ODict d).
Proof.
  intros Ho Hc. unfold add_schema_resolve.
  rewrite (bind_eq _ _ _ _ _ (deref_run _ _ _ Ho)).
  destruct o as [d0|n|node uri]; simpl in Hc.
  - injection Hc as ->. exists schema, []. rewrite app_nil_r. done.
  - injection Hc as <-. rewrite (SchemaNode_to_schema_run _ _ _ Ho).
    eexists _, _. split; [|split; [done|apply lookup_fresh]].
    by repeat constructor.
  - destruct (h !! node) as [[| n |]|] eqn:Hn; try done.
    injection Hc as <-.
    rewrite (bind_eq _ _ _ _ _ (to_schema_run _ _ _ _ _ Ho Hn)).
    destruct (is_None uri).
    + erewrite bind_eq; last first.
      { apply dict_delitem_run; [apply lookup_fresh|].
        apply document_has_dialect. }
      rewrite insert_fresh.
      eexists _, _. split; [|split; [done|apply lookup_fresh]].
      by repeat constructor.
    + eexists _, _. split; [|split; [done|apply lookup_fresh]].
      by repeat constructor.
Qed.

Lemma adopt_absent uri d : d !! "$schema" = None → adopt uri d = uri.
Proof. unfold adopt. by intros ->. Qed.

Lemma add_schema_strip_run h self node uri s d :
  h !! self = Some (ORoot node uri) → h !! s = Some (ODict d) →
  ∃ s' xs,
    Forall is_dict xs ∧
    add_schema_strip self s h =
      Some (s', <[self := ORoot node (adopt uri d)]> h ++ xs) ∧
    (<[self := ORoot node (adopt uri d)]> h ++ xs) !! s' =
      Some (ODict (delete "$schema" d)).
Proof.
  intros Hs Hd. unfold add_schema_strip.
  rewrite (bind_eq _ _ _ _ _ (dict_contains_run _ _ _ _ Hd)).
  assert (self ≠ s) as Hne by (intros ->; congruence).
  destruct (d !! "$schema") as [v|] eqn:Hv.
  - rewrite bool_decide_true by eauto.
    rewrite (bind_eq _ _ _ _ _ (get_root_run _ _ _ _ Hs)).
    assert ((if truthy uri then ret uri else dict_getitem s "$schema") h
            = Some (adopt uri d, h)) as Hor.
    { unfold adopt. rewrite Hv. destruct (truthy uri); [done|].
      by eapply dict_getitem_run. }
    rewrite (bind_eq _ _ _ _ _ Hor).
    rewrite (bind_eq _ _ _ _ _ (assign_run _ _ _ _ Hs)).
    set (h1 := <[self := _]> h).
    assert (h1 !! s = Some (ODict d)) as Hd1
      by (unfold h1; by rewrite list_lookup_insert_ne).
    rewrite (bind_eq _ _ _ _ _ (dict_copy_run _ _ _ Hd1)).
    erewrite bind_eq; last first.
    { apply dict_delitem_run; [apply lookup_fresh | eauto]. }
    rewrite insert_fresh.
    eexists _, _. split; [|split; [done|apply lookup_fresh]].
    by repeat constructor.
  - rewrite bool_decide_false by (by intros [? ?]).
    exists s, []. rewrite adopt_absent, app_nil_r, delete_id by done.
    rewrite list_insert_id by done. done.
Qed.

Lemma add_schema_fragment_run h self node uri schema o d :
  h !! self = Some (ORoot node uri) →
  h !! schema = Some o →
  carried h o = Some d →
  ∃ s xs,
    Forall is_dict xs ∧
    add_schema_fragment self schema h =
      Some (s, <[self := ORoot node (adopt uri d)]> h ++ xs) ∧
    (<[self := ORoot node (adopt uri d)]> h ++ xs) !! s =
      Some (ODict (delete "$schema" d)).
Proof.
  intros Hs Ho Hc.
  destruct (add_schema_resolve_run _ _ _ _ Ho Hc)
    as (s & xs & Hxs & Hr & Hd).
  assert ((h ++ xs) !! self = Some (ORoot node uri)) as Hs'
    by by apply lookup_app_l_Some.
  destruct (add_schema_strip_run _ _ _ _ _ _ Hs' Hd)
    as (s' & ys & Hys & Ht & Hd').
  pose proof (lookup_lt_Some _ _ _ Hs) as Hls.
  rewrite insert_app_l, <- app_assoc in Ht, Hd' by done.
  exists s', (xs ++ ys). split; [by apply Forall_app|]. split; [|done].
  unfold add_schema_fragment. by rewrite (bind_eq _ _ _ _ _ Hr).
Qed.

(** One call of [add_schema] on a well-formed receiver: the receiver's
    identifier is [adopt]ed, its engine is given the resolved dictionary
    without the dialect key, and everything else already in the store
    stays as it was; the call only appends temporaries. *)
Lemma add_schema_run h self node uri n schema o d :
  h !! self = Some (ORoot node uri) →
  h !! node = Some (ONode n) →
  h !! schema = Some o →
  carried h o = Some d →
  ∃ xs,
    Forall is_dict xs ∧
    add_schema self schema h =
      Some (tt, <[node := ONode (node_add_schema n (delete "$schema" d))]>
                  (<[self := ORoot node (adopt uri d)]> h) ++ xs).
Proof.
  intros Hs Hn Ho Hc.
  destruct (add_schema_fragment_run _ _ _ _ _ _ _ Hs Ho Hc)
    as (s & xs & Hxs & Hf & Hd).
  assert (self ≠ node) as Hne by (intros ->; congruence).
  pose proof (lookup_lt_Some _ _ _ Hs) as Hls.
  pose proof (lookup_lt_Some _ _ _ Hn) as Hln.
  unfold add_schema. rewrite (bind_eq _ _ _ _ _ Hf).
  set (h2 := <[self := _]> h ++ xs) in *.
  assert (h2 !! self = Some (ORoot node (adopt uri d))) as Hs2
    by by apply lookup_app_l_Some, list_lookup_insert_eq.
  assert (h2 !! node = Some (ONode n)) as Hn2.
  { apply lookup_app_l_Some. by rewrite list_lookup_insert_ne. }
  rewrite (bind_eq _ _ _ _ _ (get_root_run _ _ _ _ Hs2)).
  rewrite (SchemaNode_add_schema_run _ _ _ _ _ Hn2 Hd).
  exists xs. split; [done|]. do 2 f_equal. unfold h2.
  by rewrite insert_app_l by (by rewrite length_insert).
Qed.

Lemma add_object_run h self node uri n v :
  h !! self = Some (ORoot node uri) →
  h !! node = Some (ONode n) →
  add_object self v h =
    Some (tt, <[node := ONode (node_add_object n v)]> h).
Proof.
  intros Hs Hn. unfold add_object.
  rewrite (bind_eq _ _ _ _ _ (get_root_run _ _ _ _ Hs)).
  by apply SchemaNode_add_object_run.
Qed.

Lemma len_run h self node uri n :
  h !! self = Some (ORoot node uri) →
  h !! node = Some (ONode n) →
  __len__ self h = Some (node_len n, h).
Proof.
  intros Hs Hn. unfold __len__.
  rewrite (bind_eq _ _ _ _ _ (get_root_run _ _ _ _ Hs)).
  by rewrite (bind_eq _ _ _ _ _ (get_node_run _ _ _ Hn)).
Qed.

Lemma eq_run h self node uri n other node' uri' n' :
  h !! self = Some (ORoot node uri) →
  h !! node = Some (ONode n) →
  h !! other = Some (ORoot node' uri') →
  h !! node' = Some (ONode n') →
  __eq__ self other h =
    Some (if decide (self = other) then true else node_eq n n', h).
Proof.
  intros Hs Hn Ho Hn'. unfold __eq__. case_decide; [done|].
  rewrite (bind_eq _ _ _ _ _ (deref_run _ _ _ Ho)).
  rewrite (bind_eq _ _ _ _ _ (get_root_run _ _ _ _ Hs)).
  rewrite (bind_eq _ _ _ _ _ (get_node_run _ _ _ Hn)).
  by rewrite (bind_eq _ _ _ _ _ (get_node_run _ _ _ Hn')).
Qed.

Lemma init_run h uri :
  __init__ uri h =
    Some (S (length h), h ++ [ONode SchemaNode; ORoot (length h) uri]).
Proof.
  unfold __init__, bind, alloc. rewrite <- app_assoc, length_app. simpl.
  do 3 f_equal. lia.
Qed.
End Runs.

(** ** Consequences of one call *)

Section Frames.
Context `{Engine}.
Implicit Types (h : heap) (l self schema node : loc) (o : obj) (d : dict).
Implicit Types (n : node_state) (uri : json).

Lemma mergeable_carried h schema :
  mergeable h schema → is_Some (h !! schema ≫= carried h).
Proof.
  intros [d Hd|n Hn|node uri n [Hr Hn]].
  - rewrite Hd. by eexists.
  - rewrite Hn. by eexists.
  - rewrite Hr. simpl. rewrite Hn. by eexists.
Qed.

Lemma root_is_not_node h self node uri n :
  is_SchemaRoot h self node uri n → self ≠ node.
Proof. intros [Hs Hn] ->. congruence. Qed.

(** The store after [add_schema]: the receiver, its engine, and the
    frame. *)
Lemma add_schema_post h self node uri n schema :
  is_SchemaRoot h self node uri n → mergeable h schema →
  ∃ d h',
    h !! schema ≫= carried h = Some d ∧
    add_schema self schema h = Some (tt, h') ∧
    is_SchemaRoot h' self node (adopt uri d)
      (node_add_schema n (delete "$schema" d)) ∧
    (∀ l o, l ≠ self → l ≠ node → h !! l = Some o → h' !! l = Some o).
Proof.
  intros Hroot Hm. pose proof (root_is_not_node _ _ _ _ _ Hroot) as Hne.
  destruct Hroot as [Hs Hn].
  destruct (mergeable_carried _ _ Hm) as [d Hd]. exists d.
  destruct (h !! schema) as [o|] eqn:Ho; [simpl in Hd|done].
  destruct (add_schema_run _ _ _ _ _ _ _ _ Hs Hn Ho Hd) as (xs & _ & Hrun).
  pose proof (lookup_lt_Some _ _ _ Hs) as Hls.
  pose proof (lookup_lt_Some _ _ _ Hn) as Hln.
  eexists. split; [done|]. split; [exact Hrun|]. split; [split|].
  - apply lookup_app_l_Some. rewrite list_lookup_insert_ne by done.
    by apply list_lookup_insert_eq.
  - apply lookup_app_l_Some, list_lookup_insert_eq.
    by rewrite length_insert.
  - intros l o' ? ? Hl. apply lookup_app_l_Some.
    by rewrite !list_lookup_insert_ne.
Qed.

(** Whatever was a well-formed [SchemaRoot] before the call is one
    after it. *)
Lemma add_schema_post_root h h' self node uri' n' r nr ur k :
  is_SchemaRoot h' self node uri' n' →
  (∀ l o, l ≠ self → l ≠ node → h !! l = Some o → h' !! l = Some o) →
  (∃ uri n, is_SchemaRoot h self node uri n) →
  is_SchemaRoot h r nr ur k →
  ∃ ur' k', is_SchemaRoot h' r nr ur' k'.
Proof.
  intros [Hs' Hn'] Hframe (uri & n & Hs & Hn) [Hr Hk].
  assert (r ≠ node) by (intros ->; congruence).
  assert (nr ≠ self) by (intros ->; congruence).
  destruct (decide (r = self)) as [->|Hrs].
  - assert (nr = node) as -> by congruence. by eexists _, _.
  - destruct (decide (nr = node)) as [->|Hnn].
    + eexists _, _. split; [by apply Hframe|done].
    + eexists _, _. split; by apply Hframe.
Qed.

Lemma adopt_truthy uri d : truthy uri = true → adopt uri d = uri.
Proof. unfold adopt. intros ->. by destruct (d !! "$schema"). Qed.

Lemma truthy_not_None uri : truthy uri = true → is_None uri = false.
Proof. by destruct uri. Qed.

Lemma document_dialect uri n :
  no_dialect_key →
  document uri n !! "$schema" = Some (py_or uri DEFAULT_URI).
Proof.
  intros Hnd. unfold document. rewrite lookup_union_r by apply Hnd.
  apply lookup_singleton_eq.
Qed.

Lemma document_strip uri n :
  no_dialect_key → delete "$schema" (document uri n) = node_to_schema n.
Proof.
  intros Hnd. unfold document.
  rewrite delete_union, delete_singleton_eq, (right_id_L ∅ (∪)).
  apply delete_id, Hnd.
Qed.

(** Adopting the dialect of one's own document does not change the
    document. *)
Lemma document_adopt_own uri n n' :
  no_dialect_key →
  node_to_schema n' = node_to_schema n →
  document (adopt uri (document uri n)) n' = document uri n.
Proof.
  intros Hnd Hn. unfold adopt. rewrite document_dialect by done.
  unfold document. rewrite Hn. do 2 f_equal.
  destruct (truthy uri) eqn:E; [done|].
  unfold py_or at 2 3. rewrite E. reflexivity.
Qed.

(** [==] reads the store and leaves it as it is. *)
Lemma eq_reads h self other b h' :
  __eq__ self other h = Some (b, h') → h' = h.
Proof.
  unfold __eq__. case_decide; [by intros [= _ <-]|].
  unfold bind, deref, get_root, get_node, ret, raise, bind, deref.
  destruct (h !! other) as [[| |node' uri']|]; try by intros [= _ <-].
  destruct (h !! self) as [[| |node uri]|]; try done.
  destruct (h !! node) as [[| |]|]; try done.
  destruct (h !! node') as [[| |]|]; try done.
  by intros [= _ <-].
Qed.

End Frames.

(** ** A call that returns was made on well-formed objects *)

Section Inversion.
Context `{Engine}.
Implicit Types (h : heap) (l self schema node : loc) (o : obj) (d : dict).
Implicit Types (n : node_state) (uri : json) (xs : list obj).

Lemma bind_inv {A B} (m : M A) (f : A → M B) h r :
  bind m f h = Some r → ∃ a h1, m h = Some (a, h1) ∧ f a h1 = Some r.
Proof.
  unfold bind. destruct (m h) as [[a h1]|]; [|done]. by exists a, h1.
Qed.

Lemma deref_inv h l o h' : deref l h = Some (o, h') → h' = h ∧ h !! l = Some o.
Proof. unfold deref. destruct (h !! l); [|done]. by intros [= -> ->]. Qed.

Lemma get_root_inv h l node uri h' :
  get_root l h = Some ((node, uri), h') →
  h' = h ∧ h !! l = Some (ORoot node uri).
Proof.
  intros ([] & h1 & [-> Hl]%deref_inv & Hr)%bind_inv; try done.
  by injection Hr as -> -> ->.
Qed.

Lemma get_node_inv h l n h' :
  get_node l h = Some (n, h') → h' = h ∧ h !! l = Some (ONode n).
Proof.
  intros ([] & h1 & [-> Hl]%deref_inv & Hr)%bind_inv; try done.
  by injection Hr as -> ->.
Qed.

(** An object that is not a dictionary and is found after temporaries
    were appended was there before. *)
Lemma lookup_app_dicts h xs l o :
  Forall is_dict xs → ¬ is_dict o →
  (h ++ xs) !! l = Some o → h !! l = Some o.
Proof.
  intros Hxs Ho Hl. apply lookup_app_Some in Hl as [Hl|[_ Hl]]; [done|].
  destruct Ho. by eapply Forall_lookup_1 in Hl.
Qed.

Lemma to_schema_inv h self r :
  to_schema self h = Some r → ∃ node uri n, is_SchemaRoot h self node uri n.
Proof.
  unfold to_schema.
  intros (s & h1 & Hb & Hr)%bind_inv.
  unfold _base_schema in Hb.
  apply bind_inv in Hb as ([node uri] & h0 & [-> Hs]%get_root_inv & Hb).
  injection Hb as <- <-.
  apply bind_inv in Hr as ([node' uri'] & h2 & [-> Hs']%get_root_inv & Hr).
  apply bind_inv in Hr as (s' & h3 & Hn & _).
  unfold SchemaNode_to_schema in Hn.
  apply bind_inv in Hn as (n & h4 & [-> Hn]%get_node_inv & _).
  apply lookup_app_dicts in Hs'; [|by repeat constructor|by intros []].
  apply lookup_app_dicts in Hn; [|by repeat constructor|by intros []].
  assert (node' = node) as -> by congruence.
  by exists node, uri, n.
Qed.

Lemma add_object_inv h self v r :
  add_object self v h = Some r → ∃ node uri n, is_SchemaRoot h self node uri n.
Proof.
  unfold add_object.
  intros ([node uri] & h1 & [-> Hs]%get_root_inv & Hr)%bind_inv.
  unfold SchemaNode_add_object in Hr.
  apply bind_inv in Hr as (n & h2 & [-> Hn]%get_node_inv & _).
  by exists node, uri, n.
Qed.

Lemma add_schema_resolve_inv h schema r :
  add_schema_resolve schema h = Some r → mergeable h schema.
Proof.
  unfold add_schema_resolve.
  intros (o & h1 & [-> Ho]%deref_inv & Hr)%bind_inv.
  destruct o as [d|n|node uri].
  - by eapply mergeable_dict.
  - by eapply mergeable_node.
  - apply bind_inv in Hr as (s & h2 & Ht & _).
    apply to_schema_inv in Ht as (node' & uri' & n & Hroot).
    by eapply mergeable_root.
Qed.

Lemma add_schema_inv h self schema r :
  add_schema self schema h = Some r →
  (∃ node uri n, is_SchemaRoot h self node uri n) ∧ mergeable h schema.
Proof.
  unfold add_schema, add_schema_fragment.
  intros (s & h2 & Hf & Hr)%bind_inv.
  apply bind_inv in Hf as (s0 & h1 & Hres & Hstrip).
  pose proof (add_schema_resolve_inv _ _ _ Hres) as Hm.
  split; [|done].
  destruct (mergeable_carried _ _ Hm) as [d Hd].
  destruct (h !! schema) as [o|] eqn:Ho; [simpl in Hd|done].
  destruct (add_schema_resolve_run _ _ _ _ Ho Hd)
    as (s0' & xs & Hxs & Hres' & Hd0).
  rewrite Hres in Hres'. injection Hres' as <- ->.
  apply bind_inv in Hr as ([node uri2] & h3 & [-> Hs2]%get_root_inv & Hr).
  unfold SchemaNode_add_schema in Hr.
  apply bind_inv in Hr as (n & h4 & [-> Hn2]%get_node_inv & _).
  assert (self ≠ node) as Hne by (intros ->; congruence).
  pose proof Hstrip as Hstrip0. unfold add_schema_strip in Hstrip.
  rewrite (bind_eq _ _ _ _ _ (dict_contains_run _ _ _ _ Hd0)) in Hstrip.
  destruct (bool_decide (is_Some (d !! "$schema"))).
  - apply bind_inv in Hstrip
      as ([node' uri] & h5 & [-> Hs1]%get_root_inv & _).
    destruct (add_schema_strip_run _ _ _ _ _ _ Hs1 Hd0)
      as (s' & ys & Hys & Hrun & _).
    rewrite Hrun in Hstrip0. injection Hstrip0 as -> <-.
    apply lookup_app_dicts in Hs2; [|done|by intros []].
    apply lookup_app_dicts in Hn2; [|done|by intros []].
    rewrite list_lookup_insert_ne in Hn2 by done.
    apply lookup_app_dicts in Hn2; [|done|by intros []].
    apply lookup_app_dicts in Hs1; [|done|by intros []].
    pose proof (lookup_lt_Some _ _ _ Hs1) as Hlt.
    rewrite list_lookup_insert_eq in Hs2
      by (rewrite length_app; lia).
    injection Hs2 as <- _. by exists node', uri, n.
  - injection Hstrip as <- <-.
    apply lookup_app_dicts in Hs2; [|done|by intros []].
    apply lookup_app_dicts in Hn2; [|done|by intros []].
    by exists node, uri2, n.
Qed.
End Inversion.

(** ** Programs: the engine of an aggregator is fed by its own calls only *)

Section Programs.
Context `{Engine}.
Implicit Types (h : heap) (l self schema node : loc) (o : obj) (d : dict).
Implicit Types (n : node_state) (uri : json) (xs : list obj).

(** Appending dictionaries keeps the owner. *)
Lemma sole_owner_app h a na xs :
  Forall is_dict xs → sole_owner h a na → sole_owner (h ++ xs) a na.
Proof.
  intros Hxs [(uri & n & Ha & Hn) Huniq]. split.
  - exists uri, n. split; by apply lookup_app_l_Some.
  - intros r ur Hr. apply lookup_app_dicts in Hr; [|done|by intros []].
    by eapply Huniq.
Qed.

(** A write to some aggregator's identifier and engine keeps the owner,
    and reaches the engine of [a] only when the aggregator is [a]. *)
Lemma sole_owner_write h a na self node uri n uri' n' :
  sole_owner h a na →
  is_SchemaRoot h self node uri n →
  sole_owner (<[node := ONode n']> (<[self := ORoot node uri']> h)) a na ∧
  (self = a → node = na) ∧
  (self ≠ a →
     ∀ k, h !! na = Some (ONode k) →
          <[node := ONode n']> (<[self := ORoot node uri']> h) !! na
          = Some (ONode k)).
Proof.
  intros [(ua & k & Ha & Hk) Huniq] [Hs Hn].
  assert (self ≠ node) as Hne by (intros ->; congruence).
  pose proof (lookup_lt_Some _ _ _ Hs) as Hls.
  pose proof (lookup_lt_Some _ _ _ Hn) as Hln.
  assert (self = a → node = na) as Hsame by (intros ->; congruence).
  assert (self ≠ a → node ≠ na) as Hother.
  { intros Hsa ->. by apply Hsa, (Huniq self uri). }
  assert (∀ r nr ur,
    <[node := ONode n']> (<[self := ORoot node uri']> h) !! r
      = Some (ORoot nr ur) →
    ∃ ur0, h !! r = Some (ORoot nr ur0)) as Hroots.
  { intros r nr ur Hr.
    destruct (decide (r = node)) as [->|Hrn].
    { rewrite list_lookup_insert_eq in Hr by by rewrite length_insert.
      done. }
    rewrite list_lookup_insert_ne in Hr by done.
    destruct (decide (r = self)) as [->|Hrs].
    - rewrite list_lookup_insert_eq in Hr by done.
      injection Hr as <- _. by exists uri.
    - rewrite list_lookup_insert_ne in Hr by done. by exists ur. }
  split; [split|split; [done|]].
  - destruct (decide (self = a)) as [->|Hsa].
    + rewrite (Hsame eq_refl) in *. exists uri', n'. split.
      * rewrite list_lookup_insert_ne by done.
        by apply list_lookup_insert_eq.
      * apply list_lookup_insert_eq. by rewrite length_insert.
    + exists ua, k. split.
      * by rewrite !list_lookup_insert_ne
          by (first [done | intros ->; congruence]).
      * by rewrite !list_lookup_insert_ne
          by (first [by apply Hother | intros ->; congruence]).
  - intros r ur Hr. apply Hroots in Hr as [ur0 Hr]. by eapply Huniq.
  - intros Hsa k' Hk'.
    by rewrite !list_lookup_insert_ne
      by (first [by apply Hother | intros ->; congruence]).
Qed.

(** One call of a program. *)
Lemma do_call_owner c h h' a na n :
  size_contract →
  sole_owner h a na → h !! na = Some (ONode n) →
  do_call c h = Some (tt, h') →
  sole_owner h' a na ∧
  ∃ n', h' !! na = Some (ONode n') ∧
        if feeds a c then 0 < node_len n' else n' = n.
Proof.
  intros (_ & Hsz_schema & Hsz_object) Hown Hn Hc.
  pose proof (lookup_lt_Some _ _ _ Hn) as Hlt.
  destruct c as [uri|d|self schema|self v|self]; simpl in *.
  - apply bind_inv in Hc as (r & h1 & Hi & Hc). injection Hc as <-.
    rewrite init_run in Hi. injection Hi as _ <-. split.
    + destruct Hown as [(ua & k & Ha & Hk) Huniq]. split.
      * exists ua, k. split; by apply lookup_app_l_Some.
      * intros r' ur Hr. apply lookup_app_Some in Hr as [Hr|[_ Hr]].
        { by eapply Huniq. }
        destruct (r' - length h) as [|[|?]]; simpl in Hr; try done.
        injection Hr as Hr _. lia.
    + exists n. split; [by apply lookup_app_l_Some|done].
  - apply bind_inv in Hc as (r & h1 & Hi & Hc). injection Hc as <-.
    injection Hi as _ <-. split.
    + apply sole_owner_app; [by repeat constructor|done].
    + exists n. split; [by apply lookup_app_l_Some|done].
  - destruct (add_schema_inv _ _ _ _ Hc) as [(node & uri & k & Hs) Hm].
    destruct (mergeable_carried _ _ Hm) as [d Hd].
    destruct (h !! schema) as [o|] eqn:Ho; [simpl in Hd|done].
    destruct (add_schema_run _ _ _ _ _ _ _ _ (proj1 Hs) (proj2 Hs) Ho Hd)
      as (xs & Hxs & Hrun).
    rewrite Hrun in Hc. injection Hc as <-.
    destruct (sole_owner_write h a na self node uri k (adopt uri d)
                (node_add_schema k (delete "$schema" d)) Hown Hs)
      as (Hown' & Hsame & Hother).
    split; [by apply sole_owner_app|].
    case_bool_decide as Hsa.
    + rewrite (Hsame Hsa) in *. eexists. split.
      * apply lookup_app_l_Some, list_lookup_insert_eq.
        by rewrite length_insert.
      * apply Hsz_schema.
    + exists n. split; [|done]. by apply lookup_app_l_Some, Hother.
  - destruct (add_object_inv _ _ _ _ Hc) as (node & uri & k & Hs).
    rewrite (add_object_run _ _ _ _ _ _ (proj1 Hs) (proj2 Hs)) in Hc.
    injection Hc as <-.
    destruct (sole_owner_write h a na self node uri k uri
                (node_add_object k v) Hown Hs)
      as (Hown' & Hsame & Hother).
    rewrite (list_insert_id h self) in Hown', Hother by apply Hs.
    split; [done|].
    case_bool_decide as Hsa.
    + rewrite (Hsame Hsa) in *. eexists. split.
      * by apply list_lookup_insert_eq.
      * apply Hsz_object.
    + exists n. split; [|done]. by apply Hother.
  - apply bind_inv in Hc as (r & h1 & Hi & Hc). injection Hc as <-.
    destruct (to_schema_inv _ _ _ Hi) as (node & uri & k & Hs).
    rewrite (to_schema_run _ _ _ _ _ (proj1 Hs) (proj2 Hs)) in Hi.
    injection Hi as _ <-. split.
    + apply sole_owner_app; [by repeat constructor|done].
    + exists n. split; [by apply lookup_app_l_Some|done].
Qed.

(** A whole program. *)
Lemma do_calls_owner cs h h' a na n :
  size_contract →
  sole_owner h a na → h !! na = Some (ONode n) →
  do_calls cs h = Some (tt, h') →
  sole_owner h' a na ∧
  ∃ n', h' !! na = Some (ONode n') ∧
        (node_len n' = 0 ↔
         node_len n = 0 ∧ ∀ c, c ∈ cs → feeds a c = false).
Proof.
  intros Hsz. revert h n. induction cs as [|c cs IH]; intros h n Hown Hn Hrun.
  - injection Hrun as <-. split; [done|]. exists n. split; [done|].
    split; [|by intros [? _]]. intros ?. split; [done|].
    by intros c Hc%elem_of_nil.
  - simpl in Hrun. apply bind_inv in Hrun as ([] & h1 & Hc & Hrun).
    destruct (do_call_owner _ _ _ _ _ _ Hsz Hown Hn Hc)
      as (Hown1 & n1 & Hn1 & Hfed).
    destruct (IH _ _ Hown1 Hn1 Hrun) as (Hown' & n' & Hn' & Hiff).
    split; [done|]. exists n'. split; [done|]. rewrite Hiff.
    destruct (feeds a c) eqn:Hf.
    + split; [lia|]. intros [_ Hall].
      specialize (Hall c (list_elem_of_here _ _)). congruence.
    + subst n1. split.
      * intros [? Hall]. split; [done|].
        intros c' [->|?]%elem_of_cons; auto.
      * intros [? Hall]. split; [done|].
        intros c' ?. apply Hall. by apply list_elem_of_further.
Qed.

(** [__init__] makes the new aggregator the owner of a new engine. *)
Lemma init_owner h uri :
  closed_store h →
  sole_owner (h ++ [ONode SchemaNode; ORoot (length h) uri])
    (S (length h)) (length h).
Proof.
  intros Hclosed. split.
  - exists uri, SchemaNode. split.
    + rewrite lookup_app_r by lia.
      by replace (S (length h) - length h) with 1 by lia.
    + apply lookup_fresh.
  - intros r ur Hr. apply lookup_app_Some in Hr as [Hr|[Hge Hr]].
    + apply Hclosed in Hr. lia.
    + destruct (r - length h) as [|[|?]] eqn:E; simpl in Hr; try done. lia.
Qed.
End Programs.

(** ** The reference engine meets the contract *)

Section RefEngineFacts.
Import RefEngine.

Lemma RefEngine_len_mark name n : 0 < len (mark name n).
Proof.
  destruct n as [[] [] [] [] [] [] []]; unfold mark;
    repeat (destruct (String.eqb _ _); [vm_compute; lia|]);
    vm_compute; lia.
Qed.

Lemma RefEngine_len_mark_json v n : 0 < len (mark_json v n).
Proof. destruct v; apply RefEngine_len_mark. Qed.

Lemma RefEngine_no_dialect_key : no_dialect_key.
Proof. intros [[] [] [] [] [] [] []]; reflexivity. Qed.

Lemma RefEngine_size_contract : size_contract.
Proof.
  split; [reflexivity|]. split.
  - intros n d. simpl. unfold RefEngine.add_schema.
    destruct (d !! "type") as [[| | | |[|v l]|]|];
      first [apply RefEngine_len_mark_json | apply RefEngine_len_mark].
  - intros n v. destruct v; apply RefEngine_len_mark.
Qed.

Lemma RefEngine_absorbs_own_fragment : absorbs_own_fragment.
Proof. intros [[] [] [] [] [] [] []]; reflexivity. Qed.

End RefEngineFacts.

(** ** The claims *)

Section Claims.
Context `{Engine}.
Implicit Types (h : heap) (l self schema node : loc) (o : obj) (d : dict).
Implicit Types (n : node_state) (uri : json).

(** C1, as the code has it.  An identifier that Python reads as true (a
    non-empty string) is never changed by [add_schema], whatever is
    merged.  In particular, with an engine whose fragment has no dialect
    key: when [a] has no identifier and [b] carries a true [U1], then
    after [a.add_schema(b)] the identifier of [a] is [U1], and after a
    further [a.add_schema(c)], [c] carrying [U2], it is still [U1]. *)
Theorem first_wins_dialect_precedence :
  (∀ h self node uri n schema,
      is_SchemaRoot h self node uri n → mergeable h schema →
      truthy uri = true →
      ∃ h', add_schema self schema h = Some (tt, h') ∧
            schema_uri_of h' self = Some uri) ∧
  (∀ h a na n b nb m c nc k U1 U2,
      no_dialect_key →
      is_SchemaRoot h a na JNull n →
      is_SchemaRoot h b nb U1 m →
      is_SchemaRoot h c nc U2 k →
      truthy U1 = true →
      ∃ h1 h2,
        add_schema a b h = Some (tt, h1) ∧
        schema_uri_of h1 a = Some U1 ∧
        add_schema a c h1 = Some (tt, h2) ∧
        schema_uri_of h2 a = Some U1).
Proof.
  assert (∀ h self node uri n schema,
      is_SchemaRoot h self node uri n → mergeable h schema →
      truthy uri = true →
      ∃ h', add_schema self schema h = Some (tt, h') ∧
            schema_uri_of h' self = Some uri) as Hstable.
  { intros h self node uri n schema Hroot Hm Ht.
    destruct (add_schema_post _ _ _ _ _ _ Hroot Hm)
      as (d & h' & _ & Hrun & [Hs' _] & _).
    exists h'. split; [done|]. unfold schema_uri_of.
    by rewrite Hs', adopt_truthy. }
  split; [exact Hstable|].
  intros h a na n b nb m c nc k U1 U2 Hnd Ha Hb Hc Ht.
  destruct (add_schema_post _ _ _ _ _ b Ha) as (d & h1 & Hd & Hrun & Ha1 & Hfr).
  { by eapply mergeable_root. }
  assert (adopt JNull d = U1) as HU1.
  { destruct Hb as [Hb Hm]. rewrite Hb in Hd. simpl in Hd.
    rewrite Hm, truthy_not_None in Hd by done. injection Hd as <-.
    unfold adopt. rewrite document_dialect by done. simpl.
    unfold py_or. by rewrite Ht. }
  rewrite HU1 in Ha1.
  assert (mergeable h1 c) as Hc1.
  { destruct (add_schema_post_root h h1 a na _ _ c nc U2 k Ha1 Hfr)
      as (? & ? & ?); [by eexists _, _|done|].
    by eapply mergeable_root. }
  destruct (Hstable _ _ _ _ _ c Ha1 Hc1 Ht) as (h2 & Hrun2 & Huri2).
  exists h1, h2. split; [done|]. split; [|done].
  unfold schema_uri_of. by rewrite (proj1 Ha1).
Qed.


(** C3, as the code has it.  With an engine whose fragment has no
    dialect key, [to_schema()] returns a dictionary whose ["$schema"]
    is the identifier when Python reads it as true, and the default
    constant otherwise (no identifier, or an empty one). *)
Theorem to_schema_dialect_field h self node uri n :
  no_dialect_key →
  is_SchemaRoot h self node uri n →
  ∃ s h' d,
    to_schema self h = Some (s, h') ∧
    dict_at h' s = Some d ∧
    d !! "$schema" = Some (if truthy uri then uri else DEFAULT_URI).
Proof.
  intros Hnd [Hs Hn]. eexists _, _, (document uri n).
  split; [by eapply to_schema_run|]. split.
  - unfold dict_at. by rewrite lookup_fresh.
  - by apply document_dialect.
Qed.

(** C4.  [add_schema] called on a dictionary that has a ["$schema"] key
    returns, and the dictionary is afterwards what it was: the key is
    deleted from a copy, a different object, and that copy is what the
    engine is given. *)
Theorem add_schema_keeps_caller_dict h self node uri n schema d :
  is_SchemaRoot h self node uri n →
  h !! schema = Some (ODict d) →
  is_Some (d !! "$schema") →
  (∃ h', add_schema self schema h = Some (tt, h') ∧
         dict_at h' schema = Some d) ∧
  (∃ s h1, add_schema_fragment self schema h = Some (s, h1) ∧
           s ≠ schema ∧
           dict_at h1 schema = Some d ∧
           dict_at h1 s = Some (delete "$schema" d)).
Proof.
  intros Ha Hd [v Hv].
  assert (self ≠ schema) as Hne by (intros ->; destruct Ha; congruence).
  split.
  - destruct (add_schema_post _ _ _ _ _ schema Ha)
      as (d' & h1 & _ & Hrun & _ & Hfr).
    { by eapply mergeable_dict. }
    exists h1. split; [done|]. unfold dict_at.
    destruct Ha as [Hs Hn].
    rewrite (Hfr schema (ODict d)); [done|done| |done].
    intros ->. congruence.
  - destruct (add_schema_fragment_run _ _ _ _ _ _ d (proj1 Ha) Hd eq_refl)
      as (s & xs & _ & Hf & Hs).
    assert ((<[self := ORoot node (adopt uri d)]> h ++ xs) !! schema
            = Some (ODict d)) as Hkeep.
    { apply lookup_app_l_Some. by rewrite list_lookup_insert_ne. }
    eexists s, _. split; [exact Hf|]. unfold dict_at. rewrite Hkeep, Hs.
    split; [|done]. intros ->. rewrite Hkeep in Hs. injection Hs as Hs.
    apply (f_equal (λ m : dict, m !! "$schema")) in Hs.
    rewrite lookup_delete_eq, Hv in Hs. done.
Qed.

(** C5.  Whichever kind of argument [add_schema] is given, the
    dictionary it hands to the engine has no ["$schema"] key. *)
Theorem engine_fragment_has_no_dialect_key h self node uri n schema :
  is_SchemaRoot h self node uri n →
  mergeable h schema →
  ∃ s h1 frag h',
    add_schema_fragment self schema h = Some (s, h1) ∧
    dict_at h1 s = Some frag ∧
    frag !! "$schema" = None ∧
    add_schema self schema h = Some (tt, h') ∧
    h' !! node = Some (ONode (node_add_schema n frag)).
Proof.
  intros Ha Hm.
  destruct (add_schema_post _ _ _ _ _ schema Ha Hm)
    as (d & h' & Hd & Hrun & [_ Hn'] & _).
  destruct (h !! schema) as [o|] eqn:Ho; [simpl in Hd|done].
  destruct (add_schema_fragment_run _ _ _ _ _ _ _ (proj1 Ha) Ho Hd)
    as (s & xs & _ & Hf & Hs).
  eexists s, _, (delete "$schema" d), h'.
  split; [exact Hf|]. split; [unfold dict_at; by rewrite Hs|].
  split; [apply lookup_delete_eq|]. done.
Qed.

(** C6.  For two distinct [SchemaRoot] objects [==] is the engines'
    [==]; whatever the two identifiers are, objects with equal engines
    are equal; an object equals itself; [!=] is the negation of [==].
    Neither comparison changes the store. *)
Theorem equality_compares_engines_only h a na ua n b nb ub m :
  is_SchemaRoot h a na ua n →
  is_SchemaRoot h b nb ub m →
  (a ≠ b → __eq__ a b h = Some (node_eq n m, h)) ∧
  (node_eq n m = true → __eq__ a b h = Some (true, h)) ∧
  __eq__ a a h = Some (true, h) ∧
  ∃ r, __eq__ a b h = Some (r, h) ∧ __ne__ a b h = Some (negb r, h).
Proof.
  intros [Ha Hn] [Hb Hm].
  pose proof (eq_run _ _ _ _ _ _ _ _ _ Ha Hn Hb Hm) as Hab.
  pose proof (eq_run _ _ _ _ _ _ _ _ _ Ha Hn Ha Hn) as Haa.
  split; [|split; [|split]].
  - intros Hne. by rewrite Hab, decide_False.
  - intros Heq. rewrite Hab, Heq. by destruct (decide (a = b)).
  - by rewrite Haa, decide_True.
  - eexists. split; [exact Hab|]. unfold __ne__.
    by rewrite (bind_eq _ _ _ _ _ Hab).
Qed.

(** C7, as amended.  Section 6 alone does not give it.  With an engine
    whose fragment has no dialect key and which leaves its fragment as
    it is when that fragment is merged back in, merging the result of
    [a.to_schema()] back into [a] leaves the value of [a.to_schema()]
    as it was. *)
Theorem remerge_own_schema_idempotent h a na ua n :
  no_dialect_key →
  absorbs_own_fragment →
  is_SchemaRoot h a na ua n →
  ∃ s h1 d h2 s' h3,
    to_schema a h = Some (s, h1) ∧
    dict_at h1 s = Some d ∧
    add_schema a s h1 = Some (tt, h2) ∧
    to_schema a h2 = Some (s', h3) ∧
    dict_at h3 s' = Some d.
Proof.
  intros Hnd Hidem [Ha Hn].
  pose proof (to_schema_run _ _ _ _ _ Ha Hn) as Hts.
  set (h1 := h ++ _) in Hts.
  assert (h1 !! length h = Some (ODict (document ua n))) as Hs
    by apply lookup_fresh.
  assert (is_SchemaRoot h1 a na ua n) as Ha1
    by (split; by apply lookup_app_l_Some).
  destruct (add_schema_post _ _ _ _ _ (length h) Ha1)
    as (d & h2 & Hd & Hrun & Ha2 & _).
  { by eapply mergeable_dict. }
  unfold h1 in *. rewrite Hs in Hd. injection Hd as <-.
  rewrite document_strip in Ha2 by done.
  pose proof (to_schema_run _ _ _ _ _ (proj1 Ha2) (proj2 Ha2)) as Hts2.
  eexists _, _, (document ua n), _, _, _.
  split; [exact Hts|]. split; [unfold dict_at; by rewrite Hs|].
  split; [exact Hrun|]. split; [exact Hts2|].
  unfold dict_at. rewrite lookup_fresh. f_equal.
  by apply document_adopt_own.
Qed.

(** C8.  With an engine that has size 0 when new and a positive size
    after any [add_schema] or [add_object]: a newly constructed
    aggregator has [len] 0; after any program run from there, its [len]
    is 0 exactly when the program made no [add_schema] and no
    [add_object] call on it; and on any aggregator each of the two
    calls returns and leaves a positive [len]. *)
Theorem size_zero_iff_never_fed :
  size_contract →
  (∀ uri h0,
      closed_store h0 →
      ∃ a h1,
        __init__ uri h0 = Some (a, h1) ∧
        __len__ a h1 = Some (0, h1) ∧
        ∀ cs h',
          do_calls cs h1 = Some (tt, h') →
          ∃ k, __len__ a h' = Some (k, h') ∧
               (k = 0 ↔ ∀ c, c ∈ cs → feeds a c = false)) ∧
  (∀ h a na ua n,
      is_SchemaRoot h a na ua n →
      (∀ schema, mergeable h schema →
         ∃ h' k, add_schema a schema h = Some (tt, h') ∧
                 __len__ a h' = Some (k, h') ∧ 0 < k) ∧
      (∀ v, ∃ h' k, add_object a v h = Some (tt, h') ∧
                    __len__ a h' = Some (k, h') ∧ 0 < k)).
Proof.
  intros Hsz. split.
  - intros uri h0 Hclosed.
    pose proof (init_owner h0 uri Hclosed) as Hown.
    set (h1 := h0 ++ _) in *.
    assert (h1 !! length h0 = Some (ONode SchemaNode)) as Hn
      by apply lookup_fresh.
    exists (S (length h0)), h1. split; [apply init_run|].
    destruct Hown as [(ua & n & Ha & Hn0) Huniq].
    assert (n = SchemaNode) as -> by congruence.
    split.
    { rewrite (len_run _ _ _ _ _ Ha Hn). by rewrite (proj1 Hsz). }
    intros cs h' Hrun.
    destruct (do_calls_owner cs h1 h' _ _ _ Hsz
                (conj (ex_intro _ ua (ex_intro _ _ (conj Ha Hn))) Huniq)
                Hn Hrun)
      as ([(ua' & n' & Ha' & Hn') _] & n'' & Hn'' & Hiff).
    assert (n'' = n') as -> by congruence.
    exists (node_len n'). split; [by eapply len_run|].
    rewrite Hiff, (proj1 Hsz). split; [by intros [_ ?]|by split].
  - intros h a na ua n Ha. destruct Hsz as (_ & Hschema & Hobject). split.
    + intros schema Hm.
      destruct (add_schema_post _ _ _ _ _ schema Ha Hm)
        as (d & h' & _ & Hrun & [Ha' Hn'] & _).
      eexists h', _. split; [done|]. split; [by eapply len_run|].
      apply Hschema.
    + intros v. eexists _, _.
      split; [by eapply add_object_run; apply Ha|].
      destruct Ha as [Ha Hn].
      pose proof (lookup_lt_Some _ _ _ Hn) as Hlt.
      assert (a ≠ na) by (intros ->; congruence).
      split; [|apply Hobject].
      eapply len_run.
      * by rewrite list_lookup_insert_ne.
      * by apply list_lookup_insert_eq.
Qed.

(** C9.  [add_object] returns, replaces the state of the receiver's
    engine and changes nothing else in the store; in particular every
    [schema_uri] is what it was.  [to_schema], [len] and the comparisons
    change no object either: only [add_schema] writes [schema_uri]. *)
Theorem add_object_keeps_dialect h self node uri n v :
  is_SchemaRoot h self node uri n →
  add_object self v h = Some (tt, <[node := ONode (node_add_object n v)]> h) ∧
  (∀ r, schema_uri_of (<[node := ONode (node_add_object n v)]> h) r
        = schema_uri_of h r) ∧
  (∃ s xs, to_schema self h = Some (s, h ++ xs)) ∧
  (∃ k, __len__ self h = Some (k, h)) ∧
  (∀ r b h', __eq__ self r h = Some (b, h') → h' = h) ∧
  (∀ r b h', __ne__ self r h = Some (b, h') → h' = h).
Proof.
  intros [Hs Hn]. split; [by eapply add_object_run|].
  split; [|split; [|split; [|split]]].
  - intros r. unfold schema_uri_of.
    destruct (decide (r = node)) as [->|Hne].
    + rewrite list_lookup_insert_eq by by eapply lookup_lt_Some.
      by rewrite Hn.
    + by rewrite list_lookup_insert_ne.
  - eexists _, _. by eapply to_schema_run.
  - eexists. by eapply len_run.
  - intros r b h'. apply eq_reads.
  - intros r b h' Hr. unfold __ne__, bind in Hr.
    destruct (__eq__ self r h) as [[b' h'']|] eqn:E; [|done].
    injection Hr as _ <-. by eapply eq_reads.
Qed.

(** C10.  For two distinct [SchemaRoot] objects with their own engines,
    [a.add_schema(b)] returns and leaves [b] and its engine as they
    were, so [b.schema_uri] and the value of [b.to_schema()] are the
    same before and after. *)
Theorem add_schema_keeps_argument_root h a na ua n b nb ub m :
  is_SchemaRoot h a na ua n →
  is_SchemaRoot h b nb ub m →
  a ≠ b → na ≠ nb →
  ∃ h',
    add_schema a b h = Some (tt, h') ∧
    is_SchemaRoot h' b nb ub m ∧
    schema_uri_of h' b = schema_uri_of h b ∧
    ∃ s1 h1 s2 h2 d,
      to_schema b h = Some (s1, h1) ∧ dict_at h1 s1 = Some d ∧
      to_schema b h' = Some (s2, h2) ∧ dict_at h2 s2 = Some d.
Proof.
  intros Ha Hb Hab Hnn.
  destruct (add_schema_post _ _ _ _ _ b Ha)
    as (d & h' & _ & Hrun & _ & Hfr).
  { by eapply mergeable_root. }
  destruct Ha as [Ha Hn]. destruct Hb as [Hb Hm].
  assert (h' !! b = Some (ORoot nb ub)) as Hb'.
  { apply Hfr; [done| |done]. intros ->. congruence. }
  assert (h' !! nb = Some (ONode m)) as Hm'.
  { apply Hfr; [|done|done]. intros ->. congruence. }
  exists h'. split; [done|]. split; [done|]. split.
  - unfold schema_uri_of. by rewrite Hb, Hb'.
  - eexists _, _, _, _, (document ub m).
    split; [by eapply to_schema_run|].
    split; [unfold dict_at; by rewrite lookup_fresh|].
    split; [by eapply to_schema_run|].
    unfold dict_at. by rewrite lookup_fresh.
Qed.

End Claims.
(** ** Further properties of the methods *)

Section Extras.
Context `{Engine}.
Implicit Types (h : heap) (l self schema node : loc) (o : obj) (d : dict).
Implicit Types (n : node_state) (uri : json) (xs : list obj).

(** X1.  Compared with an object that is not a [SchemaRoot] (a dictionary
    or an engine object), [==] answers [False] and [!=] answers [True],
    without looking at the receiver's engine and without changing the
    store. *)
Theorem eq_with_non_aggregator h self other o :
  self ≠ other →
  h !! other = Some o →
  (∀ node uri, o ≠ ORoot node uri) →
  __eq__ self other h = Some (false, h) ∧
  __ne__ self other h = Some (true, h).
Proof.
  intros Hne Ho Hkind.
  assert (__eq__ self other h = Some (false, h)) as Heq.
  { unfold __eq__. rewrite decide_False by done.
    rewrite (bind_eq _ _ _ _ _ (deref_run _ _ _ Ho)).
    destruct o as [d|n|node uri]; [done|done|]. by destruct (Hkind node uri). }
  split; [done|]. unfold __ne__. by rewrite (bind_eq _ _ _ _ _ Heq).
Qed.

(** X2.  Equality does not see the identifier but [to_schema] does: two
    aggregators with equal engines whose identifiers give different
    ["$schema"] values are [==], yet their [to_schema()] dictionaries
    differ (the engine's fragment having no dialect key). *)
Theorem equal_aggregators_different_documents h a na ua n b nb ub m :
  no_dialect_key →
  is_SchemaRoot h a na ua n →
  is_SchemaRoot h b nb ub m →
  node_eq n m = true →
  py_or ua DEFAULT_URI ≠ py_or ub DEFAULT_URI →
  __eq__ a b h = Some (true, h) ∧
  ∃ sa ha da sb hb db,
    to_schema a h = Some (sa, ha) ∧ dict_at ha sa = Some da ∧
    to_schema b h = Some (sb, hb) ∧ dict_at hb sb = Some db ∧
    da ≠ db.
Proof.
  intros Hnd [Ha Hn] [Hb Hm] Heq Hdiff. split.
  - rewrite (eq_run _ _ _ _ _ _ _ _ _ Ha Hn Hb Hm), Heq.
    by destruct (decide (a = b)).
  - eexists _, _, (document ua n), _, _, (document ub m).
    split; [by eapply to_schema_run|].
    split; [unfold dict_at; by rewrite lookup_fresh|].
    split; [by eapply to_schema_run|].
    split; [unfold dict_at; by rewrite lookup_fresh|].
    intros Hdoc. apply Hdiff.
    apply (f_equal (λ x : dict, x !! "$schema")) in Hdoc.
    rewrite !document_dialect in Hdoc by done. by injection Hdoc.
Qed.

(** X3.  Line 98 tests [is None] and line 104 tests truth: when the
    merged aggregator's identifier is set but false (the empty string),
    the default that its [to_schema()] wrote is kept and a receiver with
    no true identifier adopts the default constant (the engine's fragment
    having no dialect key). *)
Theorem default_adopted_from_empty_identifier h a na ua n b nb ub m :
  no_dialect_key →
  is_SchemaRoot h a na ua n →
  is_SchemaRoot h b nb ub m →
  truthy ua = false →
  is_None ub = false → truthy ub = false →
  ∃ h', add_schema a b h = Some (tt, h') ∧
        schema_uri_of h' a = Some DEFAULT_URI.
Proof.
  intros Hnd Ha Hb Hua Hset Hub.
  destruct (add_schema_post _ _ _ _ _ b Ha)
    as (d & h' & Hd & Hrun & [Ha' _] & _).
  { by eapply mergeable_root. }
  exists h'. split; [done|].
  destruct Hb as [Hb Hm]. rewrite Hb in Hd. simpl in Hd.
  rewrite Hm, Hset in Hd. injection Hd as <-.
  unfold schema_uri_of. rewrite Ha'. f_equal.
  unfold adopt. rewrite document_dialect, Hua by done.
  unfold py_or. by rewrite Hub.
Qed.

(** A true identifier survives any further adoption. *)
Lemma foldl_adopt_truthy uri ds :
  truthy uri = true → foldl adopt uri ds = uri.
Proof.
  revert uri. induction ds as [|d ds IH]; intros uri Ht; [done|].
  simpl. rewrite adopt_truthy by done. by apply IH.
Qed.

(** Without one, the first true ["$schema"] value is adopted. *)
Lemma foldl_adopt_first uri ds v :
  truthy uri = false → first_dialect ds = Some v →
  foldl adopt uri ds = v.
Proof.
  revert uri. induction ds as [|d ds IH]; intros uri Hf Hv; [done|].
  simpl in *. unfold adopt at 2. rewrite Hf.
  destruct (d !! "$schema") as [w|]; [|by apply IH].
  destruct (truthy w) eqn:Hw.
  - injection Hv as ->. by apply foldl_adopt_truthy.
  - by apply IH.
Qed.

(** A run of [add_schema] calls on dictionaries. *)
Lemma add_schema_dicts a na ls ds :
  ∀ h uri n,
    is_SchemaRoot h a na uri n →
    Forall2 (λ l d, h !! l = Some (ODict d)) ls ds →
    ∃ h', do_calls (AddSchema a <$> ls) h = Some (tt, h') ∧
          is_SchemaRoot h' a na (foldl adopt uri ds) (feed_all n ds) ∧
          ∀ l d, h !! l = Some (ODict d) → h' !! l = Some (ODict d).
Proof.
  revert ds. induction ls as [|l ls IH]; intros ds h uri n Ha Hall.
  - apply Forall2_nil_inv_l in Hall as ->. exists h. by split.
  - apply Forall2_cons_inv_l in Hall as (d & ds' & Hl & Hall & ->).
    destruct (add_schema_post _ _ _ _ _ l Ha)
      as (d0 & h1 & Hd & Hrun & Ha1 & Hfr).
    { by eapply mergeable_dict. }
    rewrite Hl in Hd. injection Hd as <-.
    assert (∀ l' d', h !! l' = Some (ODict d') → h1 !! l' = Some (ODict d'))
      as Hkeep.
    { intros l' d' Hl'. destruct Ha as [Hs Hn].
      apply Hfr; [| |done]; intros ->; congruence. }
    destruct (IH ds' h1 _ _ Ha1) as (h' & Hrest & Ha' & Hkeep').
    { eapply Forall2_impl; [exact Hall|]. intros l' d'. apply Hkeep. }
    exists h'. split; [|split; [exact Ha'|]].
    + simpl. by rewrite (bind_eq _ _ _ _ _ Hrun).
    + intros l' d' Hl'. by apply Hkeep', Hkeep.
Qed.

(** X4.  "The first available [$schema]": when dictionaries are merged
    one after the other into an aggregator that has no true identifier,
    all calls return, the identifier afterwards is the first ["$schema"]
    value among them that Python reads as true, the engine has been given
    every dictionary without its dialect key, in order, and every
    dictionary of the caller is what it was. *)
Theorem first_true_dialect_is_adopted h a na uri n ls ds v :
  is_SchemaRoot h a na uri n →
  Forall2 (λ l d, h !! l = Some (ODict d)) ls ds →
  truthy uri = false →
  first_dialect ds = Some v →
  ∃ h', do_calls (AddSchema a <$> ls) h = Some (tt, h') ∧
        is_SchemaRoot h' a na v (feed_all n ds) ∧
        Forall2 (λ l d, h' !! l = Some (ODict d)) ls ds.
Proof.
  intros Ha Hall Hf Hv.
  destruct (add_schema_dicts a na ls ds h uri n Ha Hall)
    as (h' & Hrun & Ha' & Hkeep).
  exists h'. split; [done|]. split.
  - by rewrite (foldl_adopt_first uri ds v) in Ha'.
  - eapply Forall2_impl; [exact Hall|]. intros l d. apply Hkeep.
Qed.

(** X5.  Whatever the engine reports, the dictionary [to_schema()]
    returns always has a ["$schema"] key (so line 99 can delete it), has
    the engine's value under every other key, and has the engine's value
    under ["$schema"] too should the engine report one. *)
Theorem to_schema_keys h self node uri n :
  is_SchemaRoot h self node uri n →
  ∃ s h' d,
    to_schema self h = Some (s, h') ∧
    dict_at h' s = Some d ∧
    is_Some (d !! "$schema") ∧
    (∀ key, key ≠ "$schema" → d !! key = node_to_schema n !! key) ∧
    (∀ v, node_to_schema n !! "$schema" = Some v → d !! "$schema" = Some v).
Proof.
  intros [Hs Hn]. eexists _, _, (document uri n).
  split; [by eapply to_schema_run|].
  split; [unfold dict_at; by rewrite lookup_fresh|].
  split; [apply document_has_dialect|]. split.
  - intros key Hkey. unfold document.
    destruct (node_to_schema n !! key) as [v|] eqn:E.
    + by apply lookup_union_Some_l.
    + rewrite lookup_union_r by done. by apply lookup_singleton_ne.
  - intros v Hv. unfold document. by apply lookup_union_Some_l.
Qed.

(** X6.  [to_schema()] returns a new dictionary object at every call:
    two calls in a row give two references that did not exist before,
    different from each other, holding equal dictionaries, and no object
    that was in the store is changed. *)
Theorem to_schema_returns_new_objects h self node uri n :
  is_SchemaRoot h self node uri n →
  ∃ s1 h1 s2 h2 d,
    to_schema self h = Some (s1, h1) ∧
    to_schema self h1 = Some (s2, h2) ∧
    h !! s1 = None ∧ h1 !! s2 = None ∧ s1 ≠ s2 ∧
    dict_at h2 s1 = Some d ∧ dict_at h2 s2 = Some d ∧
    ∀ l o, h !! l = Some o → h2 !! l = Some o.
Proof.
  intros [Hs Hn].
  pose proof (to_schema_run _ _ _ _ _ Hs Hn) as H1.
  set (h1 := h ++ _) in H1.
  assert (h1 !! self = Some (ORoot node uri)) as Hs1
    by by apply lookup_app_l_Some.
  assert (h1 !! node = Some (ONode n)) as Hn1
    by by apply lookup_app_l_Some.
  pose proof (to_schema_run _ _ _ _ _ Hs1 Hn1) as H2.
  eexists (length h), h1, (length h1), _, (document uri n).
  split; [exact H1|]. split; [exact H2|].
  split; [apply lookup_ge_None; lia|]. split; [apply lookup_ge_None; lia|].
  split; [unfold h1; rewrite length_app; simpl; lia|].
  split; [|split].
  - unfold dict_at.
    by rewrite (lookup_app_l_Some h1 _ _ _ (lookup_fresh h _ _)).
  - unfold dict_at. by rewrite lookup_fresh.
  - intros l o Hl. by do 2 apply lookup_app_l_Some.
Qed.

(** X7.  With an engine whose fragment has no dialect key, merging an
    aggregator [b] gives the receiver's engine exactly the fragment of
    [b]'s engine, whatever [b]'s identifier is: the same as merging [b]'s
    engine object itself, which in addition never changes the receiver's
    identifier. *)
Theorem merging_aggregator_merges_engine_fragment h a na ua n b nb ub m :
  no_dialect_key →
  is_SchemaRoot h a na ua n →
  is_SchemaRoot h b nb ub m →
  ∃ h1 h2,
    add_schema a b h = Some (tt, h1) ∧
    h1 !! na = Some (ONode (node_add_schema n (node_to_schema m))) ∧
    add_schema a nb h = Some (tt, h2) ∧
    h2 !! na = Some (ONode (node_add_schema n (node_to_schema m))) ∧
    schema_uri_of h2 a = Some ua.
Proof.
  intros Hnd Ha [Hb Hm].
  destruct (add_schema_post _ _ _ _ _ b Ha)
    as (d1 & h1 & Hd1 & Hrun1 & [_ Hn1] & _).
  { by eapply mergeable_root. }
  destruct (add_schema_post _ _ _ _ _ nb Ha)
    as (d2 & h2 & Hd2 & Hrun2 & [Ha2 Hn2] & _).
  { by eapply mergeable_node. }
  rewrite Hb in Hd1. simpl in Hd1. rewrite Hm in Hd1. injection Hd1 as <-.
  rewrite Hm in Hd2. injection Hd2 as <-.
  assert (delete "$schema" (node_to_schema m) = node_to_schema m) as Hid
    by apply delete_id, Hnd.
  exists h1, h2. split; [done|]. split; [|split; [done|split]].
  - rewrite Hn1. do 3 f_equal.
    destruct (is_None ub); by rewrite !document_strip, ?Hid.
  - by rewrite Hn2, Hid.
  - unfold schema_uri_of. by rewrite Ha2, adopt_absent by apply Hnd.
Qed.

(** X8.  A dictionary without a ["$schema"] key is not copied: the
    object the caller passed is itself what the engine is given, nothing
    is allocated, and the call changes the state of the receiver's engine
    and nothing else. *)
Theorem add_schema_without_dialect_key h self node uri n schema d :
  is_SchemaRoot h self node uri n →
  h !! schema = Some (ODict d) →
  d !! "$schema" = None →
  add_schema_fragment self schema h = Some (schema, h) ∧
  add_schema self schema h =
    Some (tt, <[node := ONode (node_add_schema n d)]> h).
Proof.
  intros [Hs Hn] Hd Hkey.
  assert (add_schema_resolve schema h = Some (schema, h)) as Hres.
  { unfold add_schema_resolve.
    by rewrite (bind_eq _ _ _ _ _ (deref_run _ _ _ Hd)). }
  assert (add_schema_strip self schema h = Some (schema, h)) as Hstrip.
  { unfold add_schema_strip.
    rewrite (bind_eq _ _ _ _ _ (dict_contains_run _ _ _ _ Hd)), Hkey.
    by rewrite bool_decide_false by by intros [? ?]. }
  assert (add_schema_fragment self schema h = Some (schema, h)) as Hf.
  { unfold add_schema_fragment. by rewrite (bind_eq _ _ _ _ _ Hres). }
  split; [done|]. unfold add_schema.
  rewrite (bind_eq _ _ _ _ _ Hf).
  rewrite (bind_eq _ _ _ _ _ (get_root_run _ _ _ _ Hs)).
  by apply SchemaNode_add_schema_run.
Qed.

(** Appending a new aggregator and its engine keeps an owner. *)
Lemma sole_owner_init h a na uri :
  sole_owner h a na →
  sole_owner (h ++ [ONode SchemaNode; ORoot (length h) uri]) a na.
Proof.
  intros [(ua & k & Ha & Hk) Huniq].
  pose proof (lookup_lt_Some _ _ _ Hk) as Hlt. split.
  - exists ua, k. split; by apply lookup_app_l_Some.
  - intros r ur Hr. apply lookup_app_Some in Hr as [Hr|[_ Hr]].
    { by eapply Huniq. }
    destruct (r - length h) as [|[|?]]; simpl in Hr; try done.
    injection Hr as Hr _. lia.
Qed.

(** The aggregators after a write are those before it, with the engines
    they had. *)
Lemma roots_after_write h self node uri n uri' n' r nr ur :
  is_SchemaRoot h self node uri n →
  <[node := ONode n']> (<[self := ORoot node uri']> h) !! r
    = Some (ORoot nr ur) →
  ∃ ur0, h !! r = Some (ORoot nr ur0).
Proof.
  intros [Hs Hn] Hr.
  pose proof (lookup_lt_Some _ _ _ Hs) as Hls.
  pose proof (lookup_lt_Some _ _ _ Hn) as Hln.
  destruct (decide (r = node)) as [->|Hrn].
  { by rewrite list_lookup_insert_eq in Hr by by rewrite length_insert. }
  rewrite list_lookup_insert_ne in Hr by done.
  destruct (decide (r = self)) as [->|Hrs].
  - rewrite list_lookup_insert_eq in Hr by done.
    injection Hr as <- _. by exists uri.
  - rewrite list_lookup_insert_ne in Hr by done. by exists ur.
Qed.

Lemma own_engines_closed h : own_engines h → closed_store h.
Proof.
  intros Hown r node uri Hr.
  destruct (Hown r node uri Hr) as [(ur & n & _ & Hn) _].
  by eapply lookup_lt_Some.
Qed.

Lemma own_engines_app h xs :
  Forall is_dict xs → own_engines h → own_engines (h ++ xs).
Proof.
  intros Hxs Hown r node uri Hr.
  apply lookup_app_dicts in Hr; [|done|by intros []].
  apply sole_owner_app; [done|]. by eapply Hown.
Qed.

Lemma own_engines_write h self node uri n uri' n' :
  is_SchemaRoot h self node uri n →
  own_engines h →
  own_engines (<[node := ONode n']> (<[self := ORoot node uri']> h)).
Proof.
  intros Hs Hown r nr ur Hr.
  destruct (roots_after_write _ _ _ _ _ _ _ _ _ _ Hs Hr) as [ur0 Hr0].
  exact (proj1 (sole_owner_write h r nr self node uri n uri' n'
                  (Hown r nr ur0 Hr0) Hs)).
Qed.

(** One call keeps every aggregator with an engine of its own. *)
Lemma do_call_own_engines c h h' :
  own_engines h → do_call c h = Some (tt, h') → own_engines h'.
Proof.
  intros Hown Hc.
  destruct c as [uri|d|self schema|self v|self]; simpl in *.
  - apply bind_inv in Hc as (r & h1 & Hi & Hc). injection Hc as <-.
    rewrite init_run in Hi. injection Hi as _ <-.
    intros r' nr ur Hr.
    apply lookup_app_Some in Hr as [Hr|[Hge Hr]].
    + apply sole_owner_init. by eapply Hown.
    + destruct (r' - length h) as [|[|?]] eqn:E; simpl in Hr; try done.
      injection Hr as <- <-.
      replace r' with (S (length h)) by lia.
      by apply init_owner, own_engines_closed.
  - apply bind_inv in Hc as (r & h1 & Hi & Hc). injection Hc as <-.
    injection Hi as _ <-.
    apply own_engines_app; [by repeat constructor|done].
  - destruct (add_schema_inv _ _ _ _ Hc) as [(node & uri & k & Hs) Hm].
    destruct (mergeable_carried _ _ Hm) as [d Hd].
    destruct (h !! schema) as [o|] eqn:Ho; [simpl in Hd|done].
    destruct (add_schema_run _ _ _ _ _ _ _ _ (proj1 Hs) (proj2 Hs) Ho Hd)
      as (xs & Hxs & Hrun).
    rewrite Hrun in Hc. injection Hc as <-.
    apply own_engines_app; [done|]. by eapply own_engines_write.
  - destruct (add_object_inv _ _ _ _ Hc) as (node & uri & k & Hs).
    rewrite (add_object_run _ _ _ _ _ _ (proj1 Hs) (proj2 Hs)) in Hc.
    injection Hc as <-.
    rewrite <- (list_insert_id h self (ORoot node uri)) by apply Hs.
    by eapply own_engines_write.
  - apply bind_inv in Hc as (r & h1 & Hi & Hc). injection Hc as <-.
    destruct (to_schema_inv _ _ _ Hi) as (node & uri & k & Hs).
    rewrite (to_schema_run _ _ _ _ _ (proj1 Hs) (proj2 Hs)) in Hi.
    injection Hi as _ <-.
    apply own_engines_app; [by repeat constructor|done].
Qed.

(** X9.  Engines are never shared: in the empty store, and after any
    program run from a store where it holds, every [SchemaRoot] has an
    engine object that no other [SchemaRoot] has; [__init__] creates it
    and no method replaces it. *)
Theorem engines_are_never_shared :
  own_engines [] ∧
  ∀ cs h h',
    own_engines h → do_calls cs h = Some (tt, h') → own_engines h'.
Proof.
  split; [by intros r node uri Hr|].
  induction cs as [|c cs IH]; intros h h' Hown Hrun.
  - by injection Hrun as <-.
  - simpl in Hrun. apply bind_inv in Hrun as ([] & h1 & Hc & Hrun).
    eapply IH; [|exact Hrun]. by eapply do_call_own_engines.
Qed.

(** What one call of a program does to the store: it appends objects,
    or writes one aggregator's identifier and engine and appends. *)
Lemma do_call_shape c h h' :
  do_call c h = Some (tt, h') →
  (∃ xs, h' = h ++ xs) ∨
  (∃ self node uri n uri' n' xs,
      is_SchemaRoot h self node uri n ∧
      h' = <[node := ONode n']> (<[self := ORoot node uri']> h) ++ xs ∧
      match c with
      | AddSchema s _ => s = self ∧ ∃ d, uri' = adopt uri d
      | AddObject s _ => s = self ∧ uri' = uri
      | _ => False
      end).
Proof.
  intros Hc. destruct c as [uri|d|self schema|self v|self]; simpl in *.
  - apply bind_inv in Hc as (r & h1 & Hi & Hc). injection Hc as <-.
    rewrite init_run in Hi. injection Hi as _ <-. left. by eexists.
  - apply bind_inv in Hc as (r & h1 & Hi & Hc). injection Hc as <-.
    injection Hi as _ <-. left. by eexists.
  - destruct (add_schema_inv _ _ _ _ Hc) as [(node & uri & k & Hs) Hm].
    destruct (mergeable_carried _ _ Hm) as [d Hd].
    destruct (h !! schema) as [o|] eqn:Ho; [simpl in Hd|done].
    destruct (add_schema_run _ _ _ _ _ _ _ _ (proj1 Hs) (proj2 Hs) Ho Hd)
      as (xs & Hxs & Hrun).
    rewrite Hrun in Hc. injection Hc as <-.
    right. eexists self, node, uri, k, _, _, xs.
    split; [done|]. split; [done|]. split; [done|]. by exists d.
  - destruct (add_object_inv _ _ _ _ Hc) as (node & uri & k & Hs).
    rewrite (add_object_run _ _ _ _ _ _ (proj1 Hs) (proj2 Hs)) in Hc.
    injection Hc as <-.
    right. eexists self, node, uri, k, uri, _, [].
    split; [done|]. split; [|done].
    by rewrite app_nil_r, (list_insert_id h self) by apply Hs.
  - apply bind_inv in Hc as (r & h1 & Hi & Hc). injection Hc as <-.
    destruct (to_schema_inv _ _ _ Hi) as (node & uri & k & Hs).
    rewrite (to_schema_run _ _ _ _ _ (proj1 Hs) (proj2 Hs)) in Hi.
    injection Hi as _ <-. left. by eexists.
Qed.

(** X10.  Over a whole program, whatever objects its calls are made on:
    the identifier of an aggregator is the same at the end as at the
    start when it is one Python reads as true, and also when the program
    makes no [add_schema] call on that aggregator. *)
Theorem dialect_kept_by_programs cs :
  ∀ h h' a uri,
    schema_uri_of h a = Some uri →
    truthy uri = true ∨ (∀ schema, AddSchema a schema ∉ cs) →
    do_calls cs h = Some (tt, h') →
    schema_uri_of h' a = Some uri.
Proof.
  induction cs as [|c cs IH]; intros h h' a uri Huri Hwhy Hrun.
  - by injection Hrun as <-.
  - simpl in Hrun. apply bind_inv in Hrun as ([] & h1 & Hc & Hrun).
    eapply (IH h1); [|
      destruct Hwhy as [?|Hno]; [by left|right; intros s Hs;
        by apply (Hno s), list_elem_of_further] | exact Hrun].
    unfold schema_uri_of in *.
    destruct (h !! a) as [[| |na ua]|] eqn:Ha; try done.
    injection Huri as ->.
    destruct (do_call_shape _ _ _ Hc)
      as [[xs ->]|(self & node & us & k & us' & k' & xs & [Hs Hk] & -> & Hkind)].
    { by rewrite (lookup_app_l_Some _ _ _ _ Ha). }
    assert (a ≠ node) as Han by (intros ->; congruence).
    pose proof (lookup_lt_Some _ _ _ Hs) as Hls.
    destruct (decide (a = self)) as [->|Hne].
    + erewrite lookup_app_l_Some; last first.
      { rewrite list_lookup_insert_ne by done.
        by apply list_lookup_insert_eq. }
      assert (us = uri) as -> by congruence. f_equal.
      destruct c as [| |s sch|s v|]; try done.
      * destruct Hkind as [-> [d ->]].
        destruct Hwhy as [Ht|Hno]; [by apply adopt_truthy|].
        destruct (Hno sch). apply list_elem_of_here.
      * by destruct Hkind as [_ ->].
    + erewrite lookup_app_l_Some; last first.
      { rewrite !list_lookup_insert_ne by done. exact Ha. }
      done.
Qed.

(** X11.  The three in-place dictionary operations of the module (lines
    99, 106 and 124) only ever reach dictionaries the module itself has
    just created: a dictionary that is in the store keeps its items
    through any program, whichever way it is passed around. *)
Theorem dictionaries_kept_by_programs cs :
  ∀ h h' l d,
    h !! l = Some (ODict d) →
    do_calls cs h = Some (tt, h') →
    h' !! l = Some (ODict d).
Proof.
  induction cs as [|c cs IH]; intros h h' l d Hl Hrun.
  - by injection Hrun as <-.
  - simpl in Hrun. apply bind_inv in Hrun as ([] & h1 & Hc & Hrun).
    eapply (IH h1); [|exact Hrun].
    destruct (do_call_shape _ _ _ Hc)
      as [[xs ->]|(self & node & us & k & us' & k' & xs & [Hs Hk] & -> & _)].
    { by apply lookup_app_l_Some. }
    apply lookup_app_l_Some.
    rewrite !list_lookup_insert_ne; [done| |]; intros ->; congruence.
Qed.
End Extras.

(** ** Re-merging one's own schema and section 6 *)

Section Remerge.
Context `{Engine}.
Implicit Types (h : heap) (n : node_state) (uri : json).

(** The engine condition of C7 is needed: when the fragment has no
    dialect key and every aggregator's [to_schema()] survives the
    re-merge, the engine leaves its own fragment as it is. *)
Lemma remerge_needs_absorption :
  no_dialect_key →
  (∀ h a na ua n,
      is_SchemaRoot h a na ua n →
      ∃ s h1 d h2 s' h3,
        to_schema a h = Some (s, h1) ∧
        dict_at h1 s = Some d ∧
        add_schema a s h1 = Some (tt, h2) ∧
        to_schema a h2 = Some (s', h3) ∧
        dict_at h3 s' = Some d) →
  absorbs_own_fragment.
Proof.
  intros Hnd Hall n.
  set (h := [ONode n; ORoot 0 JNull]).
  assert (is_SchemaRoot h 1 0 JNull n) as Ha by by split.
  clearbody h.
  destruct (Hall h 1 0 JNull n Ha)
    as (s & h1 & d & h2 & s' & h3 & Hts & Hd & Hrun & Hts' & Hd').
  rewrite (to_schema_run _ _ _ _ _ (proj1 Ha) (proj2 Ha)) in Hts.
  injection Hts as <- <-.
  unfold dict_at in Hd. rewrite lookup_fresh in Hd. injection Hd as <-.
  assert (is_SchemaRoot (h ++ [ODict (document JNull n);
                               ODict (node_to_schema n)]) 1 0 JNull n)
    as Ha1 by (destruct Ha; split; by apply lookup_app_l_Some).
  destruct (add_schema_post _ _ _ _ _ (length h) Ha1)
    as (d0 & h2' & Hd0 & Hrun' & Ha2 & _).
  { eapply mergeable_dict. apply lookup_fresh. }
  rewrite lookup_fresh in Hd0. injection Hd0 as <-.
  rewrite Hrun in Hrun'. injection Hrun' as <-.
  rewrite document_strip in Ha2 by done.
  rewrite (to_schema_run _ _ _ _ _ (proj1 Ha2) (proj2 Ha2)) in Hts'.
  injection Hts' as <- <-.
  unfold dict_at in Hd'. rewrite lookup_fresh in Hd'. injection Hd' as Hd'.
  apply (f_equal (delete "$schema")) in Hd'.
  by rewrite !document_strip in Hd' by done.
Qed.
End Remerge.

Section WidestEngineFacts.

Lemma WidestEngine_section6 : section6_contract (H := WidestEngine.engine).
Proof.
  split; [|split; [|split; [|split; [|split]]]].
  - by intros [|n].
  - split; [reflexivity|]. split.
    + intros n d. simpl. unfold WidestEngine.add_schema. lia.
    + intros n v. simpl. unfold WidestEngine.add_object. lia.
  - intros n m. apply Nat.eqb_eq.
  - by intros n m ->%Nat.eqb_eq.
  - intros n i j. apply Nat.eqb_eq.
    destruct i, j; simpl;
      unfold WidestEngine.add_schema, WidestEngine.add_object; lia.
  - intros n i. apply Nat.eqb_eq.
    destruct i; simpl;
      unfold WidestEngine.add_schema, WidestEngine.add_object; lia.
Qed.

(** C7 as stated fails: the engine above meets section 6, yet for a new
    aggregator the re-merge of its own [to_schema()] adds a ["widest"]
    item to what [to_schema()] returns. *)
Lemma remerge_changes_schema_of_section6_engine :
  section6_contract (H := WidestEngine.engine) ∧
  __init__ (H := WidestEngine.engine) JNull []
  = Some (1, WidestEngine.fresh) ∧
  ∃ s h1 d h2 s' h3 d',
    to_schema (H := WidestEngine.engine) 1 WidestEngine.fresh
    = Some (s, h1) ∧
    dict_at h1 s = Some d ∧
    add_schema 1 s h1 = Some (tt, h2) ∧
    to_schema 1 h2 = Some (s', h3) ∧
    dict_at h3 s' = Some d' ∧
    d !! "widest" = None ∧
    d' !! "widest" = Some (JNum 1).
Proof.
  split; [exact WidestEngine_section6|]. split; [reflexivity|].
  assert (is_SchemaRoot (H := WidestEngine.engine)
            WidestEngine.fresh 1 0 JNull 0) as Ha by by split.
  pose proof (to_schema_run _ _ _ _ _ (proj1 Ha) (proj2 Ha)) as Hts.
  set (h1 := WidestEngine.fresh ++ _) in Hts.
  assert (h1 !! 2
          = Some (ODict (document (H := WidestEngine.engine) JNull 0)))
    as Hs by reflexivity.
  assert (is_SchemaRoot (H := WidestEngine.engine) h1 1 0 JNull 0) as Ha1
    by by split.
  destruct (add_schema_post _ _ _ _ _ 2 Ha1)
    as (d0 & h2 & Hd0 & Hrun & Ha2 & _).
  { by eapply mergeable_dict. }
  rewrite Hs in Hd0. injection Hd0 as <-.
  pose proof (to_schema_run _ _ _ _ _ (proj1 Ha2) (proj2 Ha2)) as Hts2.
  eexists 2, h1, _, h2, _, _, _.
  split; [exact Hts|]. split; [unfold dict_at; by rewrite Hs|].
  split; [exact Hrun|]. split; [exact Hts2|].
  split; [unfold dict_at; by rewrite lookup_fresh|].
  split; reflexivity.
Qed.
End WidestEngineFacts.

(** ** The claims on the session's store *)

Section Session.
Import Scenario.

Example session_store : do_calls session [] = Some (tt, store).
Proof. reflexivity. Qed.

Lemma store_e : is_SchemaRoot store 8 7 (JStr "") RefEngine.empty.
Proof. by split. Qed.

(** C1 as stated fails: an aggregator constructed with the empty string
    has its identifier set, and merging a dictionary that carries "U2"
    replaces it. *)
Lemma first_wins_overridden_when_empty :
  is_SchemaRoot store 8 7 (JStr "") RefEngine.empty ∧
  is_None (JStr "") = false ∧
  dict_at store 0 = Some fragment ∧
  schema_uri_of store 8 = Some (JStr "") ∧
  ∃ h', add_schema 8 0 store = Some (tt, h') ∧
        schema_uri_of h' 8 = Some (JStr "U2") ∧
        JStr "U2" ≠ JStr "".
Proof.
  split; [exact store_e|]. split; [reflexivity|]. split; [reflexivity|].
  split; [reflexivity|].
  destruct (add_schema_post (H := RefEngine.engine)
              store 8 7 (JStr "") RefEngine.empty 0 store_e
              (mergeable_dict store 0 fragment eq_refl))
    as (d & h' & Hd & Hrun & [Hs _] & _).
  injection Hd as <-. exists h'. split; [exact Hrun|].
  split; [|discriminate]. unfold schema_uri_of. by rewrite Hs.
Qed.

(** C3 as stated fails: with the identifier set to the empty string,
    [to_schema()] writes the default constant, not the identifier. *)
Lemma to_schema_defaults_when_empty :
  is_SchemaRoot store 8 7 (JStr "") RefEngine.empty ∧
  is_None (JStr "") = false ∧
  ∃ s h' d, to_schema 8 store = Some (s, h') ∧
            dict_at h' s = Some d ∧
            d !! "$schema" = Some DEFAULT_URI ∧
            DEFAULT_URI ≠ JStr "".
Proof.
  split; [exact store_e|]. split; [reflexivity|].
  eexists _, _, _.
  split; [exact (to_schema_run _ _ _ _ _ (proj1 store_e) (proj2 store_e))|].
  split; [reflexivity|]. split; [reflexivity|]. discriminate.
Qed.

(** The claims' theorems at work on the store. *)

Lemma closed_store_nil : closed_store (H := RefEngine.engine) [].
Proof. intros r node uri Hr. done. Qed.

Lemma first_wins_dialect_precedence_witness :
  (∃ h', add_schema 4 0 store = Some (tt, h') ∧
         schema_uri_of h' 4 = Some (JStr "U1")) ∧
  (∃ h1 h2,
      add_schema 2 4 store = Some (tt, h1) ∧
      schema_uri_of h1 2 = Some (JStr "U1") ∧
      add_schema 2 6 h1 = Some (tt, h2) ∧
      schema_uri_of h2 2 = Some (JStr "U1")).
Proof.
  split.
  - apply (proj1 (first_wins_dialect_precedence (H := RefEngine.engine))
             store 4 3 (JStr "U1") RefEngine.empty 0).
    + split; reflexivity.
    + apply (mergeable_dict _ _ fragment). reflexivity.
    + reflexivity.
  - apply (proj2 (first_wins_dialect_precedence (H := RefEngine.engine))
             store 2 1 RefEngine.empty 4 3 RefEngine.empty
             6 5 RefEngine.empty (JStr "U1") (JStr "U2")).
    + exact RefEngine_no_dialect_key.
    + split; reflexivity.
    + split; reflexivity.
    + split; reflexivity.
    + reflexivity.
Defined.


Lemma to_schema_dialect_field_witness :
  ∃ s h' d,
    to_schema 4 store = Some (s, h') ∧
    dict_at h' s = Some d ∧
    d !! "$schema" = Some (JStr "U1").
Proof.
  apply (to_schema_dialect_field (H := RefEngine.engine) store 4 3 (JStr "U1") RefEngine.empty).
  - exact RefEngine_no_dialect_key.
  - split; reflexivity.
Defined.

Lemma add_schema_keeps_caller_dict_witness :
  ∃ h', add_schema 2 0 store = Some (tt, h') ∧
        dict_at h' 0 = Some fragment.
Proof.
  apply (add_schema_keeps_caller_dict (H := RefEngine.engine)
           store 2 1 JNull RefEngine.empty).
  - split; reflexivity.
  - reflexivity.
  - exists (JStr "U2"). reflexivity.
Defined.

Lemma engine_fragment_has_no_dialect_key_witness :
  ∃ s h1 frag h',
    add_schema_fragment 2 4 store = Some (s, h1) ∧
    dict_at h1 s = Some frag ∧
    frag !! "$schema" = None ∧
    add_schema 2 4 store = Some (tt, h') ∧
    h' !! 1 = Some (ONode (node_add_schema RefEngine.empty frag)).
Proof.
  apply (engine_fragment_has_no_dialect_key (H := RefEngine.engine)
           store 2 1 JNull).
  - split; reflexivity.
  - eapply mergeable_root. split; reflexivity.
Defined.

Lemma equality_compares_engines_only_witness :
  __eq__ 4 6 store = Some (true, store) ∧
  __eq__ 4 4 store = Some (true, store).
Proof.
  destruct (equality_compares_engines_only (H := RefEngine.engine)
              store 4 3 (JStr "U1") RefEngine.empty
              6 5 (JStr "U2") RefEngine.empty)
    as (_ & Heq & Hself & _).
  - split; reflexivity.
  - split; reflexivity.
  - split; [apply Heq; reflexivity|exact Hself].
Defined.

Lemma remerge_own_schema_idempotent_witness :
  ∃ s h1 d h2 s' h3,
    to_schema 4 store = Some (s, h1) ∧
    dict_at h1 s = Some d ∧
    add_schema 4 s h1 = Some (tt, h2) ∧
    to_schema 4 h2 = Some (s', h3) ∧
    dict_at h3 s' = Some d.
Proof.
  apply (remerge_own_schema_idempotent (H := RefEngine.engine)
           store 4 3 (JStr "U1") RefEngine.empty).
  - exact RefEngine_no_dialect_key.
  - exact RefEngine_absorbs_own_fragment.
  - split; reflexivity.
Defined.

Lemma size_zero_iff_never_fed_witness :
  (∃ a h1, __init__ JNull [] = Some (a, h1) ∧
           __len__ a h1 = Some (0, h1)) ∧
  (∃ h' k, add_schema 2 0 store = Some (tt, h') ∧
           __len__ 2 h' = Some (k, h') ∧ 0 < k).
Proof.
  destruct (size_zero_iff_never_fed (H := RefEngine.engine)
              RefEngine_size_contract)
    as [Hnew Hfed].
  split.
  - destruct (Hnew JNull [] closed_store_nil) as (a & h1 & Hi & Hl & _).
    exists a, h1. split; assumption.
  - apply (proj1 (Hfed store 2 1 JNull RefEngine.empty
                    (conj eq_refl eq_refl))).
    apply (mergeable_dict _ _ fragment). reflexivity.
Defined.

Lemma add_object_keeps_dialect_witness :
  add_object 4 (JStr "there") store =
    Some (tt, <[3 := ONode (node_add_object RefEngine.empty (JStr "there"))]>
                store) ∧
  schema_uri_of
    (<[3 := ONode (node_add_object RefEngine.empty (JStr "there"))]> store) 4
  = schema_uri_of store 4.
Proof.
  destruct (add_object_keeps_dialect (H := RefEngine.engine)
              store 4 3 (JStr "U1") RefEngine.empty (JStr "there"))
    as (Hrun & Huri & _).
  - split; reflexivity.
  - split; [exact Hrun|apply Huri].
Defined.

Lemma add_schema_keeps_argument_root_witness :
  ∃ h', add_schema 2 4 store = Some (tt, h') ∧
        is_SchemaRoot h' 4 3 (JStr "U1") RefEngine.empty.
Proof.
  destruct (add_schema_keeps_argument_root (H := RefEngine.engine)
              store 2 1 JNull RefEngine.empty
              4 3 (JStr "U1") RefEngine.empty)
    as (h' & Hrun & Hb & _).
  - split; reflexivity.
  - split; reflexivity.
  - lia.
  - lia.
  - exists h'. split; assumption.
Defined.
End Session.

(** ** The further properties on the session's store *)

Section SessionExtras.
Import Scenario.

Lemma eq_with_non_aggregator_witness :
  __eq__ 4 0 store = Some (false, store) ∧
  __ne__ 4 0 store = Some (true, store).
Proof.
  apply (eq_with_non_aggregator (H := RefEngine.engine)
           store 4 0 (ODict fragment)).
  - lia.
  - reflexivity.
  - intros node uri. discriminate.
Defined.

Lemma equal_aggregators_different_documents_witness :
  __eq__ 4 6 store = Some (true, store) ∧
  ∃ sa ha da sb hb db,
    to_schema 4 store = Some (sa, ha) ∧ dict_at ha sa = Some da ∧
    to_schema 6 store = Some (sb, hb) ∧ dict_at hb sb = Some db ∧
    da ≠ db.
Proof.
  apply (equal_aggregators_different_documents (H := RefEngine.engine)
           store 4 3 (JStr "U1") RefEngine.empty
           6 5 (JStr "U2") RefEngine.empty).
  - exact RefEngine_no_dialect_key.
  - split; reflexivity.
  - split; reflexivity.
  - reflexivity.
  - cbv. discriminate.
Defined.

Lemma default_adopted_from_empty_identifier_witness :
  ∃ h', add_schema 2 8 store = Some (tt, h') ∧
        schema_uri_of h' 2 = Some DEFAULT_URI.
Proof.
  apply (default_adopted_from_empty_identifier (H := RefEngine.engine)
           store 2 1 JNull RefEngine.empty 8 7 (JStr "") RefEngine.empty).
  - exact RefEngine_no_dialect_key.
  - split; reflexivity.
  - split; reflexivity.
  - reflexivity.
  - reflexivity.
  - reflexivity.
Defined.

Lemma first_true_dialect_is_adopted_witness :
  ∃ h', do_calls (AddSchema 2 <$> [0; 0]) store = Some (tt, h') ∧
        is_SchemaRoot h' 2 1 (JStr "U2")
          (feed_all RefEngine.empty [fragment; fragment]) ∧
        Forall2 (λ l d, h' !! l = Some (ODict d)) [0; 0] [fragment; fragment].
Proof.
  apply (first_true_dialect_is_adopted (H := RefEngine.engine)
           store 2 1 JNull RefEngine.empty).
  - split; reflexivity.
  - repeat constructor.
  - reflexivity.
  - reflexivity.
Defined.

Lemma to_schema_keys_witness :
  ∃ s h' d,
    to_schema 4 store = Some (s, h') ∧
    dict_at h' s = Some d ∧
    is_Some (d !! "$schema") ∧
    (∀ key, key ≠ "$schema" →
            d !! key = node_to_schema RefEngine.empty !! key) ∧
    (∀ v, node_to_schema RefEngine.empty !! "$schema" = Some v →
          d !! "$schema" = Some v).
Proof.
  apply (to_schema_keys (H := RefEngine.engine) store 4 3 (JStr "U1")).
  split; reflexivity.
Defined.

Lemma to_schema_returns_new_objects_witness :
  ∃ s1 h1 s2 h2 d,
    to_schema 4 store = Some (s1, h1) ∧
    to_schema 4 h1 = Some (s2, h2) ∧
    store !! s1 = None ∧ h1 !! s2 = None ∧ s1 ≠ s2 ∧
    dict_at h2 s1 = Some d ∧ dict_at h2 s2 = Some d ∧
    ∀ l o, store !! l = Some o → h2 !! l = Some o.
Proof.
  apply (to_schema_returns_new_objects (H := RefEngine.engine)
           store 4 3 (JStr "U1") RefEngine.empty).
  split; reflexivity.
Defined.

Lemma merging_aggregator_merges_engine_fragment_witness :
  ∃ h1 h2,
    add_schema 2 4 store = Some (tt, h1) ∧
    h1 !! 1 = Some (ONode (node_add_schema RefEngine.empty
                             (node_to_schema RefEngine.empty))) ∧
    add_schema 2 3 store = Some (tt, h2) ∧
    h2 !! 1 = Some (ONode (node_add_schema RefEngine.empty
                             (node_to_schema RefEngine.empty))) ∧
    schema_uri_of h2 2 = Some JNull.
Proof.
  apply (merging_aggregator_merges_engine_fragment (H := RefEngine.engine)
           store 2 1 JNull RefEngine.empty 4 3 (JStr "U1") RefEngine.empty).
  - exact RefEngine_no_dialect_key.
  - split; reflexivity.
  - split; reflexivity.
Defined.

Lemma add_schema_without_dialect_key_witness :
  add_schema_fragment 2 0
    [ODict {[ "type" := JStr "string" ]}; ONode RefEngine.empty;
     ORoot 1 JNull]
  = Some (0, [ODict {[ "type" := JStr "string" ]}; ONode RefEngine.empty;
              ORoot 1 JNull]).
Proof.
  apply (add_schema_without_dialect_key (H := RefEngine.engine)
           _ 2 1 JNull RefEngine.empty 0 {[ "type" := JStr "string" ]}).
  - split; reflexivity.
  - reflexivity.
  - reflexivity.
Defined.

Lemma engines_are_never_shared_witness : own_engines store.
Proof.
  apply (proj2 (engines_are_never_shared (H := RefEngine.engine))
           session [] store).
  - exact (proj1 (engines_are_never_shared (H := RefEngine.engine))).
  - reflexivity.
Defined.

Lemma dialect_kept_by_programs_witness :
  ∃ h', do_calls [AddSchema 4 0] store = Some (tt, h') ∧
        schema_uri_of h' 4 = Some (JStr "U1").
Proof.
  destruct (add_schema_dicts (H := RefEngine.engine)
              4 3 [0] [fragment] store (JStr "U1") RefEngine.empty)
    as (h' & Hrun & _).
  - split; reflexivity.
  - repeat constructor.
  - exists h'. split; [exact Hrun|].
    apply (dialect_kept_by_programs (H := RefEngine.engine)
             [AddSchema 4 0] store h' 4 (JStr "U1")).
    + reflexivity.
    + left. reflexivity.
    + exact Hrun.
Defined.

Lemma dictionaries_kept_by_programs_witness :
  ∃ h', do_calls [AddSchema 2 0; AddSchema 2 0] store = Some (tt, h') ∧
        h' !! 0 = Some (ODict fragment).
Proof.
  destruct (add_schema_dicts (H := RefEngine.engine)
              2 1 [0; 0] [fragment; fragment] store JNull RefEngine.empty)
    as (h' & Hrun & _).
  - split; reflexivity.
  - repeat constructor.
  - exists h'. split; [exact Hrun|].
    apply (dictionaries_kept_by_programs (H := RefEngine.engine)
             [AddSchema 2 0; AddSchema 2 0] store h' 0 fragment).
    + reflexivity.
    + exact Hrun.
Defined.
End SessionExtras.
